(** * Excalibur Rain: a shallow embedding of [main.js]

    JavaScript numbers that carry physical quantities (positions, angles,
    velocities, noise samples) are read as real numbers; counters,
    timestamps and canvas dimensions are integers.  The physics engine
    (Matter.js) and the noise source (SimplexNoise) are external libraries:
    only the operations [main.js] calls on them are modelled. *)

From Stdlib Require Import Reals Lra Lia ZArith List Bool String.
From Stdlib Require Import Permutation Sorted.
Import ListNotations.

Local Open Scope R_scope.

(** ** JavaScript number operations *)

Module JS.

(** Comparisons of numbers, as booleans. *)
Definition ltb (a b : R) : bool := if Rlt_dec a b then true else false.
Definition gtb (a b : R) : bool := if Rgt_dec a b then true else false.
Definition leb (a b : R) : bool := if Rle_dec a b then true else false.
Definition geb (a b : R) : bool := if Rge_dec a b then true else false.

(** Rounding toward zero, the integer quotient behind [%]. *)
Definition trunc (x : R) : Z :=
  if Rle_dec 0 x then Int_part x else (- Int_part (- x))%Z.

(** [a % b]: the remainder takes the sign of the dividend. *)
Definition rem (a b : R) : R := a - b * IZR (trunc (a / b)).

End JS.

(** ** Configuration constants ([CONFIG]) *)

Module CONFIG.
Module ISLAND.
Definition START_PCT : R := 0.3.
Definition END_PCT : R := 0.55.
Definition DEPTH : R := 250.
Definition NOISE_SCALE : R := 0.005.
End ISLAND.
Module SWORD.
Definition WIDTH : R := 35.
Definition HEIGHT : R := 320.
Definition SPAWN_Y : R := -500.
Definition COOLDOWN : Z := 500.
End SWORD.
End CONFIG.

(** ** Bodies and the physics world, as [main.js] uses them *)

Module Vector.
Record t : Type := mk { x : R; y : R }.
End Vector.

(** What a body was built from: [Bodies.rectangle(x, y, w, h)] or
    [Bodies.fromVertices(x, y, [vertices])]. *)
Inductive Shape : Type :=
| Rectangle (width height : R)
| Polygon (vertices : list Vector.t).

Module Body.

(** A body object.  [id] stands for the object's identity: two
    references to one body carry one [id]. *)
Record t : Type := mk {
  id : nat;
  label : string;
  isStatic : bool;
  position : Vector.t;
  angle : R;
  velocity : Vector.t;
  angularVelocity : R;
  shape : Shape
}.

Definition setStatic (b : t) (s : bool) : t :=
  mk (id b) (label b) s (position b) (angle b) (velocity b)
     (angularVelocity b) (shape b).

Definition setVelocity (b : t) (v : Vector.t) : t :=
  mk (id b) (label b) (isStatic b) (position b) (angle b) v
     (angularVelocity b) (shape b).

Definition setAngularVelocity (b : t) (w : R) : t :=
  mk (id b) (label b) (isStatic b) (position b) (angle b) (velocity b)
     w (shape b).

End Body.

Module Bodies.

(** [Bodies.rectangle(x, y, width, height, { label, angle, ... })]:
    a dynamic body at rest.  The material options (friction, density,
    restitution) only feed the simulation and are left out. *)
Definition rectangle (fresh : nat) (x y width height : R)
    (label : string) (angle : R) : Body.t :=
  Body.mk fresh label false (Vector.mk x y) angle (Vector.mk 0 0) 0
          (Rectangle width height).

(** [Bodies.fromVertices(x, y, [vertices], { isStatic, label, ... })]. *)
Definition fromVertices (fresh : nat) (x y : R) (vertices : list Vector.t)
    (isStatic : bool) (label : string) : Body.t :=
  Body.mk fresh label isStatic (Vector.mk x y) 0 (Vector.mk 0 0) 0
          (Polygon vertices).

End Bodies.

(** [engine.world]: the bodies in insertion order. *)
Module World.

Definition t : Type := list Body.t.

Definition add (w : t) (b : Body.t) : t := w ++ [b].

(** [World.remove(world, body)], with [b] the identity of [body]: drops
    the object's first occurrence, and does nothing when the world does
    not hold it. *)
Fixpoint remove (w : t) (b : nat) : t :=
  match w with
  | [] => []
  | c :: w' => if Nat.eqb (Body.id c) b then w' else c :: remove w' b
  end.

Definition clear (w : t) : t := [].

(** The object a reference denotes, if the world holds it. *)
Fixpoint lookup (w : t) (i : nat) : option Body.t :=
  match w with
  | [] => None
  | c :: w' => if Nat.eqb (Body.id c) i then Some c else lookup w' i
  end.

(** A mutation of the object [b] denotes, seen through the world. *)
Fixpoint store (w : t) (b : Body.t) : t :=
  match w with
  | [] => []
  | c :: w' =>
      if Nat.eqb (Body.id c) (Body.id b) then b :: w' else c :: store w' b
  end.

End World.

(** ** Program state *)

(** The [Game] object, [WorldGenerator]'s noise source and island
    reference, the engine's world, the canvas size, the
    ["excalibur_scores"] entry of [localStorage], and the engine's
    supply of body identities.  The DOM side of [updateUI] and of the
    game-over screen only displays these fields and is left out. *)
Record State : Type := mkState {
  lives : Z;
  maxLives : Z;
  swordsOnScreen : Z;
  isPlaying : bool;
  lastSpawnTime : Z;
  highScores : list Z;
  simplex : R -> R -> R;
  islandBody : option nat;
  world : World.t;
  canvas_width : Z;
  canvas_height : Z;
  excalibur_scores : option (list Z);
  nextId : nat
}.

Definition set_lives (v : Z) (s : State) : State :=
  mkState v (maxLives s) (swordsOnScreen s) (isPlaying s) (lastSpawnTime s)
    (highScores s) (simplex s) (islandBody s) (world s) (canvas_width s)
    (canvas_height s) (excalibur_scores s) (nextId s).

Definition set_swordsOnScreen (v : Z) (s : State) : State :=
  mkState (lives s) (maxLives s) v (isPlaying s) (lastSpawnTime s)
    (highScores s) (simplex s) (islandBody s) (world s) (canvas_width s)
    (canvas_height s) (excalibur_scores s) (nextId s).

Definition set_isPlaying (v : bool) (s : State) : State :=
  mkState (lives s) (maxLives s) (swordsOnScreen s) v (lastSpawnTime s)
    (highScores s) (simplex s) (islandBody s) (world s) (canvas_width s)
    (canvas_height s) (excalibur_scores s) (nextId s).

Definition set_lastSpawnTime (v : Z) (s : State) : State :=
  mkState (lives s) (maxLives s) (swordsOnScreen s) (isPlaying s) v
    (highScores s) (simplex s) (islandBody s) (world s) (canvas_width s)
    (canvas_height s) (excalibur_scores s) (nextId s).

Definition set_highScores (v : list Z) (s : State) : State :=
  mkState (lives s) (maxLives s) (swordsOnScreen s) (isPlaying s)
    (lastSpawnTime s) v (simplex s) (islandBody s) (world s)
    (canvas_width s) (canvas_height s) (excalibur_scores s) (nextId s).

Definition set_islandBody (v : option nat) (s : State) : State :=
  mkState (lives s) (maxLives s) (swordsOnScreen s) (isPlaying s)
    (lastSpawnTime s) (highScores s) (simplex s) v (world s)
    (canvas_width s) (canvas_height s) (excalibur_scores s) (nextId s).

Definition set_world (v : World.t) (s : State) : State :=
  mkState (lives s) (maxLives s) (swordsOnScreen s) (isPlaying s)
    (lastSpawnTime s) (highScores s) (simplex s) (islandBody s) v
    (canvas_width s) (canvas_height s) (excalibur_scores s) (nextId s).

Definition set_canvas (w h : Z) (s : State) : State :=
  mkState (lives s) (maxLives s) (swordsOnScreen s) (isPlaying s)
    (lastSpawnTime s) (highScores s) (simplex s) (islandBody s) (world s)
    w h (excalibur_scores s) (nextId s).

Definition set_excalibur_scores (v : option (list Z)) (s : State) : State :=
  mkState (lives s) (maxLives s) (swordsOnScreen s) (isPlaying s)
    (lastSpawnTime s) (highScores s) (simplex s) (islandBody s) (world s)
    (canvas_width s) (canvas_height s) v (nextId s).

Definition set_nextId (v : nat) (s : State) : State :=
  mkState (lives s) (maxLives s) (swordsOnScreen s) (isPlaying s)
    (lastSpawnTime s) (highScores s) (simplex s) (islandBody s) (world s)
    (canvas_width s) (canvas_height s) (excalibur_scores s) v.

(** ** [Game.saveScore] *)

(** [Array.prototype.sort(compareFn)], as a stable insertion sort: [a]
    goes before [b] when [compareFn a b <= 0]. *)
Fixpoint sort_insert (compareFn : Z -> Z -> Z) (a : Z) (l : list Z) : list Z :=
  match l with
  | [] => [a]
  | b :: l' =>
      if (compareFn a b <=? 0)%Z then a :: b :: l'
      else b :: sort_insert compareFn a l'
  end.

Definition Array_sort (compareFn : Z -> Z -> Z) (l : list Z) : list Z :=
  fold_right (sort_insert compareFn) [] l.

(** [arr.slice(0, n)]. *)
Definition Array_slice0 (n : nat) (l : list Z) : list Z := firstn n l.

(** [this.highScores.push(this.swordsOnScreen);
     this.highScores.sort((a, b) => b - a);
     this.highScores = this.highScores.slice(0, 3);
     localStorage.setItem("excalibur_scores", JSON.stringify(this.highScores));] *)
Definition saveScore (s : State) : State :=
  let pushed := highScores s ++ [swordsOnScreen s] in
  let sorted := Array_sort (fun a b => (b - a)%Z) pushed in
  let kept := Array_slice0 3 sorted in
  set_excalibur_scores (Some kept) (set_highScores kept s).

(** ** The collision classifier's verticality test *)

(** [const angle = sword.angle % (Math.PI * 2);
     const isVertical =
       Math.abs(angle) < 0.8 || Math.abs(angle) > Math.PI * 2 - 0.8;] *)
Definition isVertical (sword_angle : R) : bool :=
  let angle := JS.rem sword_angle (PI * 2) in
  JS.ltb (Rabs angle) 0.8 || JS.gtb (Rabs angle) (PI * 2 - 0.8).

(** ** [WorldGenerator.createIsland] *)

(** [const resolution = 15;] *)
Definition resolution : R := 15.

Section IslandPasses.

Variable noise2D : R -> R -> R.
Variables startX width surfaceY : R.

(** The vertex one iteration of the first loop pushes. *)
Definition topVertex (x : R) : Vector.t :=
  let noiseVal := noise2D ((x + startX) * CONFIG.ISLAND.NOISE_SCALE) 0 in
  let y := surfaceY + noiseVal * 40 in
  Vector.mk (startX + x) y.

(** The vertex one iteration of the second loop pushes.  The quotient
    [x / width] is a division of reals: it stands for the program's
    value when [width] is not zero (on a canvas of width 0 the program
    divides 0 by 0), so facts about this vertex are stated for a
    positive width. *)
Definition bottomVertex (x : R) : Vector.t :=
  let noiseVal := noise2D ((x + startX) * 0.01) 100 in
  let arc := sin ((x / width) * PI) in
  let y := surfaceY + CONFIG.ISLAND.DEPTH * arc + noiseVal * 60 in
  Vector.mk (startX + x) y.

(** [for (let x = 0; x <= width; x += resolution) vertices.push(...)],
    entered at [x]; [None] when the fuel runs out before the loop exits. *)
Fixpoint topPass (fuel : nat) (x : R) (vertices : list Vector.t)
    : option (list Vector.t) :=
  match fuel with
  | O => None
  | S fuel' =>
      if JS.leb x width
      then topPass fuel' (x + resolution) (vertices ++ [topVertex x])
      else Some vertices
  end.

(** [for (let x = width; x >= 0; x -= resolution) vertices.push(...)]. *)
Fixpoint bottomPass (fuel : nat) (x : R) (vertices : list Vector.t)
    : option (list Vector.t) :=
  match fuel with
  | O => None
  | S fuel' =>
      if JS.geb x 0
      then bottomPass fuel' (x - resolution) (vertices ++ [bottomVertex x])
      else Some vertices
  end.

End IslandPasses.

(** Fuel that lets either loop over a span of [width] run to its exit. *)
Definition loopFuel (width : R) : nat :=
  S (S (Z.to_nat (Int_part (width / resolution)))).

Definition island_startX (canvas_w : Z) : R :=
  IZR canvas_w * CONFIG.ISLAND.START_PCT.

Definition island_endX (canvas_w : Z) : R :=
  IZR canvas_w * CONFIG.ISLAND.END_PCT.

Definition island_width (canvas_w : Z) : R :=
  island_endX canvas_w - island_startX canvas_w.

Definition island_surfaceY (canvas_h : Z) : R := IZR canvas_h - 150.

(** The array [vertices] after the first loop. *)
Definition topVertices (noise2D : R -> R -> R) (canvas_w canvas_h : Z)
    : option (list Vector.t) :=
  let startX := island_startX canvas_w in
  let width := island_width canvas_w in
  let surfaceY := island_surfaceY canvas_h in
  topPass noise2D startX width surfaceY (loopFuel width) 0 [].

(** What the second loop pushes. *)
Definition bottomVertices (noise2D : R -> R -> R) (canvas_w canvas_h : Z)
    : option (list Vector.t) :=
  let startX := island_startX canvas_w in
  let width := island_width canvas_w in
  let surfaceY := island_surfaceY canvas_h in
  bottomPass noise2D startX width surfaceY (loopFuel width) width [].

(** The array [vertices] after both loops. *)
Definition islandVertices (noise2D : R -> R -> R) (canvas_w canvas_h : Z)
    : option (list Vector.t) :=
  let startX := island_startX canvas_w in
  let width := island_width canvas_w in
  let surfaceY := island_surfaceY canvas_h in
  match topVertices noise2D canvas_w canvas_h with
  | None => None
  | Some vertices =>
      bottomPass noise2D startX width surfaceY (loopFuel width) width vertices
  end.

(** [createIsland]: build the outline, drop the previous island body if
    there is one, create the new static body and add it to the world.
    The loops always exit within [loopFuel] (see [islandVertices_total]),
    so the [None] branch is never taken. *)
Definition createIsland (s : State) : State :=
  match islandVertices (simplex s) (canvas_width s) (canvas_height s) with
  | None => s
  | Some vertices =>
      let startX := island_startX (canvas_width s) in
      let width := island_width (canvas_width s) in
      let surfaceY := island_surfaceY (canvas_height s) in
      let w :=
        match islandBody s with
        | Some b => World.remove (world s) b
        | None => world s
        end in
      let centerX := startX + width / 2 in
      let centerY := surfaceY + CONFIG.ISLAND.DEPTH / 2 in
      let body :=
        Bodies.fromVertices (nextId s) centerX centerY vertices true "ground" in
      set_world (World.add w body)
        (set_islandBody (Some (Body.id body)) (set_nextId (S (nextId s)) s))
  end.

(** ** [Game.reset] *)

Definition reset (s : State) : State :=
  let s := set_lives 3 s in
  let s := set_swordsOnScreen 0 s in
  let s := set_isPlaying true s in
  let s := set_lastSpawnTime 0 s in
  let s := set_world (World.clear (world s)) s in
  createIsland s.

(** ** Input handling *)

(** [spawnSword(x)]; [random] is the value [Math.random()] returns. *)
Definition spawnSword (x random : R) (s : State) : State :=
  let sword :=
    Bodies.rectangle (nextId s) x CONFIG.SWORD.SPAWN_Y CONFIG.SWORD.WIDTH
      CONFIG.SWORD.HEIGHT "sword" 0 in
  let sword := Body.setAngularVelocity sword ((random - 0.5) * 0.02) in
  let s := set_nextId (S (nextId s)) s in
  let s := set_world (World.add (world s) sword) s in
  set_swordsOnScreen (swordsOnScreen s + 1) s.

(** The canvas [mousedown] listener; [now] is [Date.now()]. *)
Definition mousedown (clientX : R) (now : Z) (random : R) (s : State) : State :=
  if negb (isPlaying s) then s
  else if (now - lastSpawnTime s <? CONFIG.SWORD.COOLDOWN)%Z then s
  else set_lastSpawnTime now (spawnSword clientX random s).

(** ** Life loss and game over *)

Definition triggerGameOver (s : State) : State :=
  saveScore (set_isPlaying false s).

Definition triggerLifeLoss (s : State) : State :=
  let s := set_lives (lives s - 1) s in
  if (lives s <=? 0)%Z then triggerGameOver s else s.

(** ** The [beforeUpdate] listener *)

(** [body.label === "sword" && body.position.y > canvas.height + 400] *)
Definition inVoid (canvas_h : Z) (body : Body.t) : bool :=
  String.eqb (Body.label body) "sword"
  && JS.gtb (Vector.y (Body.position body)) (IZR canvas_h + 400).

(** The callback of [bodies.forEach], on one body of the snapshot. *)
Definition voidCheck (s : State) (body : Body.t) : State :=
  if inVoid (canvas_height s) body
  then
    let s := set_world (World.remove (world s) (Body.id body)) s in
    let s := set_swordsOnScreen (swordsOnScreen s - 1) s in
    triggerLifeLoss s
  else s.

(** [Composite.allBodies] returns a fresh array, so the loop runs over
    the bodies the world held when the listener was entered. *)
Definition beforeUpdate (s : State) : State :=
  if negb (isPlaying s) then s
  else
    let bodies := world s in
    fold_left voidCheck bodies s.

(** ** The [collisionStart] listener *)

(** Which member of the pair is the sword: [(sword, other)]. *)
Definition identify (bodyA bodyB : Body.t) : option (Body.t * Body.t) :=
  if String.eqb (Body.label bodyA) "sword" then Some (bodyA, bodyB)
  else if String.eqb (Body.label bodyB) "sword" then Some (bodyB, bodyA)
  else None.

(** What the listener does to the sword it pins. *)
Definition pin (sword : Body.t) : Body.t :=
  let sword := Body.setStatic sword true in
  let sword := Body.setVelocity sword (Vector.mk 0 0) in
  Body.setAngularVelocity sword 0.

(** The callback of [event.pairs.forEach].  A pair holds references to
    two bodies of the world; a reference to a body the world does not
    hold changes nothing that [main.js] can observe. *)
Definition collisionPair (s : State) (pair : nat * nat) : State :=
  match World.lookup (world s) (fst pair), World.lookup (world s) (snd pair) with
  | Some bodyA, Some bodyB =>
      match identify bodyA bodyB with
      | Some (sword, other) =>
          if negb (Body.isStatic sword)
             && String.eqb (Body.label other) "ground"
          then
            if isVertical (Body.angle sword)
            then set_world (World.store (world s) (pin sword)) s
            else s
          else s
      | None => s
      end
  | _, _ => s
  end.

Definition collisionStart (pairs : list (nat * nat)) (s : State) : State :=
  fold_left collisionPair pairs s.

(** ** The session as a transition system *)

(** What one step of the simulation does to a moving body. *)
Record Motion : Type := mkMotion {
  to_position : Vector.t;
  to_angle : R;
  to_velocity : Vector.t;
  to_angularVelocity : R
}.

Definition move (m : Motion) (b : Body.t) : Body.t :=
  Body.mk (Body.id b) (Body.label b) (Body.isStatic b) (to_position m)
    (to_angle m) (to_velocity m) (to_angularVelocity m) (Body.shape b).

(** The engine integrates the dynamic bodies and leaves static ones. *)
Definition integrateOne (s : State) (mv : nat * Motion) : State :=
  match World.lookup (world s) (fst mv) with
  | Some b =>
      if Body.isStatic b then s
      else set_world (World.store (world s) (move (snd mv) b)) s
  | None => s
  end.

Definition integrate (moves : list (nat * Motion)) (s : State) : State :=
  fold_left integrateOne moves s.

(** What happens to the program: a pointer press, one call of
    [Engine.update] from [render] (the [beforeUpdate] listener, then the
    engine's integration, then the [collisionStart] listener), a window
    resize, or a click on the restart button. *)
Inductive Event : Type :=
| MouseDown (clientX : R) (now : Z) (random : R)
| Tick (moves : list (nat * Motion)) (pairs : list (nat * nat))
| Resize (innerWidth innerHeight : Z)
| Restart.

Definition step (s : State) (e : Event) : State :=
  match e with
  | MouseDown clientX now random => mousedown clientX now random s
  | Tick moves pairs => collisionStart pairs (integrate moves (beforeUpdate s))
  | Resize w h => set_canvas w h s
  | Restart => reset s
  end.

Definition run (events : list Event) (s : State) : State :=
  fold_left step events s.

(** The state once the script has loaded: [stored] is what
    [JSON.parse(localStorage.getItem("excalibur_scores"))] yields. *)
Definition init (noise2D : R -> R -> R) (innerWidth innerHeight : Z)
    (stored : option (list Z)) : State :=
  createIsland
    (mkState 3 3 0 true 0
       (match stored with Some l => l | None => [0; 0; 0]%Z end)
       noise2D None [] innerWidth innerHeight stored 0).

Inductive reachable (s0 : State) : State -> Prop :=
| reach_init : reachable s0 s0
| reach_step s e : reachable s0 s -> reachable s0 (step s e).

(** ** Notions the specification speaks of *)

(** The angle brought into [[0, 2 * PI)] by
    whole turns, and the tolerance test on that representative. *)
Definition normalize_angle (theta : R) : R :=
  theta - (PI * 2) * IZR (Int_part (theta / (PI * 2))).

Definition spec_isVertical (theta : R) : Prop :=
  normalize_angle theta < 0.8 \/ normalize_angle theta > PI * 2 - 0.8.

(** A list in descending order: every element is at least each later one. *)
Definition descending (l : list Z) : Prop :=
  StronglySorted (fun a b => (b <= a)%Z) l.

(** The number of samples either loop takes over a span of [width]. *)
Definition sampleCount (width : R) : nat :=
  if Rle_dec 0 width then S (Z.to_nat (Int_part (width / resolution))) else O.

(** The least integer that is not below [r]. *)
Definition ceil (r : R) : Z := (- Int_part (- r))%Z.

(** The distance between two points of the plane. *)
Definition distance (p q : Vector.t) : R :=
  sqrt ((Vector.x p - Vector.x q) * (Vector.x p - Vector.x q)
        + (Vector.y p - Vector.y q) * (Vector.y p - Vector.y q)).

(** A noise source whose samples stay within [[-1, 1]]. *)
Definition bounded_noise (noise2D : R -> R -> R) : Prop :=
  forall a b : R, -1 <= noise2D a b <= 1.

(** A pair that puts a falling sword against the terrain: a non-static
    body labelled ["sword"] and a static body labelled ["ground"]. *)
Definition sword_on_ground (sword other : Body.t) : Prop :=
  Body.label sword = "sword"%string /\ Body.isStatic sword = false /\
  Body.label other = "ground"%string /\ Body.isStatic other = true.

(** Every body labelled ["ground"] is static. *)
Definition grounds_static (w : World.t) : Prop :=
  Forall (fun b => Body.label b = "ground"%string -> Body.isStatic b = true) w.

(** Two bodies that agree in everything but their identity. *)
Definition same_body (b1 b2 : Body.t) : Prop :=
  Body.label b1 = Body.label b2 /\ Body.isStatic b1 = Body.isStatic b2 /\
  Body.position b1 = Body.position b2 /\ Body.angle b1 = Body.angle b2 /\
  Body.velocity b1 = Body.velocity b2 /\
  Body.angularVelocity b1 = Body.angularVelocity b2 /\
  Body.shape b1 = Body.shape b2.

(** Two states that agree up to the identities the engine handed out. *)
Definition equivalent (s1 s2 : State) : Prop :=
  lives s1 = lives s2 /\ maxLives s1 = maxLives s2 /\
  swordsOnScreen s1 = swordsOnScreen s2 /\ isPlaying s1 = isPlaying s2 /\
  lastSpawnTime s1 = lastSpawnTime s2 /\ highScores s1 = highScores s2 /\
  canvas_width s1 = canvas_width s2 /\ canvas_height s1 = canvas_height s2 /\
  excalibur_scores s1 = excalibur_scores s2 /\
  Forall2 same_body (world s1) (world s2).

(** The state a fresh session starts from: full lives, no swords, play
    enabled, the spawn timer cleared, and the terrain as the only body. *)
Definition fresh_session (s : State) : Prop :=
  lives s = 3%Z /\ swordsOnScreen s = 0%Z /\ isPlaying s = true /\
  lastSpawnTime s = 0%Z /\
  exists island : Body.t,
    world s = [island] /\ islandBody s = Some (Body.id island) /\
    Body.label island = "ground"%string /\ Body.isStatic island = true.

(** What a handler leaves alone when it neither adds nor removes a body
    and does not touch the session's counters. *)
Definition session_frame (s s' : State) : Prop :=
  isPlaying s' = isPlaying s /\ lives s' = lives s /\
  swordsOnScreen s' = swordsOnScreen s /\
  lastSpawnTime s' = lastSpawnTime s /\ highScores s' = highScores s /\
  map Body.id (world s') = map Body.id (world s) /\
  map Body.label (world s') = map Body.label (world s).

(** ** Sample states *)

Module Sample.

(** A continuous noise source within [[-1, 1]] that is 1 along the line
    the top pass samples ([b = 0]) and -1 along the line the bottom pass
    samples ([b = 100]). *)
Definition slanted_noise (a b : R) : R := Rmax (-1) (Rmin 1 (1 - b / 50)).

(** A terrain body and a sword that has fallen onto it, tilted by 0.1. *)
Definition terrain : Body.t :=
  Bodies.fromVertices 0 510 725 [] true "ground".

Definition fallen : Body.t :=
  Body.mk 1 "sword" false (Vector.mk 450 490) 0.1 (Vector.mk 0 12) 0.01
    (Rectangle CONFIG.SWORD.WIDTH CONFIG.SWORD.HEIGHT).

(** A session in play on a 1200 by 800 canvas holding these two bodies. *)
Definition playing : State :=
  mkState 3 3 1 true 1000 [0; 0; 0]%Z (fun _ _ => 0) (Some 0%nat)
    [terrain; fallen] 1200 800 None 2.

(** A sword far below the canvas. *)
Definition sunk (i : nat) : Body.t :=
  Body.mk i "sword" false (Vector.mk 450 1500) 2 (Vector.mk 0 30) 0.01
    (Rectangle CONFIG.SWORD.WIDTH CONFIG.SWORD.HEIGHT).

(** A session that is over while a sword is still below the boundary. *)
Definition over : State :=
  mkState 0 3 0 false 1000 [2; 1; 0]%Z (fun _ _ => 0) (Some 0%nat)
    [terrain; sunk 1] 1200 800 (Some [2; 1; 0]%Z) 2.

(** Where the engine puts a sword that has fallen past the island on a
    canvas 800 high. *)
Definition deep : Motion :=
  mkMotion (Vector.mk 100 1300) 2 (Vector.mk 0 40) 0.01.

(** Where the engine puts a sword that has landed upright on the island
    of a canvas 1300 high. *)
Definition landed : Motion :=
  mkMotion (Vector.mk 700 990) 0.1 (Vector.mk 0 35) 0.01.

(** Four swords dropped past the island: the first two cross the
    boundary one step after the other, the last two in the same step. *)
Definition four_misses : list Event :=
  [MouseDown 100 1000 0.5; MouseDown 100 1500 0.5;
   MouseDown 100 2000 0.5; MouseDown 100 2500 0.5;
   Tick [(1%nat, deep)] [];
   Tick [(2%nat, deep)] [];
   Tick [(3%nat, deep); (4%nat, deep)] []].

(** A sword dropped onto the island, which pins it, and the window then
    made 800 shorter. *)
Definition pin_then_shrink : list Event :=
  [MouseDown 700 1000 0.5;
   Tick [(1%nat, landed)] [(1%nat, 0%nat)];
   Resize 1600 500].

End Sample.

(** ** [Game.updateUI]: the hearts *)

Section Hearts.

(** The two glyphs of the hearts line: a life left, a life lost. *)
Variables full empty : string.

(** [for (let i = 0; i < this.maxLives; i++)
       heartsHTML += i < this.lives ? full : empty;]
    entered at [i]; [None] when the fuel runs out before the loop exits. *)
Fixpoint heartsLoop (maxLives lives : Z) (fuel : nat) (i : Z)
    (heartsHTML : string) : option string :=
  match fuel with
  | O => None
  | S fuel' =>
      if (i <? maxLives)%Z
      then heartsLoop maxLives lives fuel' (i + 1)
             (heartsHTML ++ (if (i <? lives)%Z then full else empty))
      else Some heartsHTML
  end.

(** What [updateUI] writes into the hearts container. *)
Definition heartsHTML (s : State) : option string :=
  heartsLoop (maxLives s) (lives s) (S (Z.to_nat (maxLives s))) 0 "".

End Hearts.

(** ** Further notions *)

(** [n] copies of a glyph, one after the other. *)
Fixpoint glyphs (g : string) (n : nat) : string :=
  match n with
  | O => ""
  | S n' => g ++ glyphs g n'
  end.

(** The number of bodies of the world that carry a label. *)
Definition labelCount (l : string) (w : World.t) : nat :=
  count_occ string_dec (map Body.label w) l.

(** The number of bodies the boundary check of a canvas [canvas_h] high
    takes for fallen swords. *)
Definition voidCount (canvas_h : Z) (w : World.t) : nat :=
  List.length (filter (inVoid canvas_h) w).

(** What the engine's bookkeeping keeps true of a session: bodies have
    distinct identities, all handed out already; the sword counter counts
    the bodies labelled sword; there is one body labelled ground, the one
    [WorldGenerator.islandBody] refers to; and there is no other kind of
    body. *)
Definition well_formed (s : State) : Prop :=
  NoDup (map Body.id (world s)) /\
  Forall (fun i => (i < nextId s)%nat) (map Body.id (world s)) /\
  swordsOnScreen s = Z.of_nat (labelCount "sword" (world s)) /\
  labelCount "ground" (world s) = 1%nat /\
  Forall (fun l => l = "sword"%string \/ l = "ground"%string)
    (map Body.label (world s)) /\
  exists island : nat,
    islandBody s = Some island /\
    In (island, "ground"%string)
       (combine (map Body.id (world s)) (map Body.label (world s))).

(** What loading the page makes of the stored scores:
    [JSON.parse(localStorage.getItem("excalibur_scores")) || [0, 0, 0]]. *)
Definition loadScores (stored : option (list Z)) : list Z :=
  match stored with Some l => l | None => [0; 0; 0]%Z end.

(** The table [saveScore] leaves when the session ends with [v] swords. *)
Definition savedScores (hs : list Z) (v : Z) : list Z :=
  Array_slice0 3 (Array_sort (fun a b => (b - a)%Z) (hs ++ [v])).

(** What the collision listener may have done to the body a reference
    denotes: nothing, or pinned it, which it does only to a non-static
    body labelled sword whose angle passes the verticality test. *)
Definition kept_or_pinned (w w' : World.t) : Prop :=
  forall (i : nat) (b' : Body.t),
    World.lookup w' i = Some b' ->
    exists b : Body.t,
      World.lookup w i = Some b /\
      (b' = b \/
       (b' = pin b /\ Body.label b = "sword"%string /\
        Body.isStatic b = false /\ isVertical (Body.angle b) = true)).

(** How lives and play status go together. *)
Definition lives_in_step (s : State) : Prop :=
  maxLives s = 3%Z /\ (lives s <= 3)%Z /\
  (isPlaying s = true -> (1 <= lives s)%Z) /\
  (isPlaying s = false -> (lives s <= 0)%Z).

(** * Facts about the model *)

(** ** Number operations *)

Module JSFacts.

Lemma ltb_true a b : a < b -> JS.ltb a b = true.
Proof. intros H; unfold JS.ltb; destruct (Rlt_dec a b); [reflexivity | contradiction]. Qed.

Lemma ltb_false a b : b <= a -> JS.ltb a b = false.
Proof. intros H; unfold JS.ltb; destruct (Rlt_dec a b); [lra | reflexivity]. Qed.

Lemma gtb_true a b : a > b -> JS.gtb a b = true.
Proof. intros H; unfold JS.gtb; destruct (Rgt_dec a b); [reflexivity | contradiction]. Qed.

Lemma gtb_false a b : a <= b -> JS.gtb a b = false.
Proof. intros H; unfold JS.gtb; destruct (Rgt_dec a b); [lra | reflexivity]. Qed.

Lemma leb_true a b : a <= b -> JS.leb a b = true.
Proof. intros H; unfold JS.leb; destruct (Rle_dec a b); [reflexivity | contradiction]. Qed.

Lemma leb_false a b : b < a -> JS.leb a b = false.
Proof. intros H; unfold JS.leb; destruct (Rle_dec a b); [lra | reflexivity]. Qed.

Lemma geb_true a b : a >= b -> JS.geb a b = true.
Proof. intros H; unfold JS.geb; destruct (Rge_dec a b); [reflexivity | contradiction]. Qed.

Lemma geb_false a b : a < b -> JS.geb a b = false.
Proof. intros H; unfold JS.geb; destruct (Rge_dec a b); [lra | reflexivity]. Qed.

Lemma ltb_spec a b : JS.ltb a b = true <-> a < b.
Proof. unfold JS.ltb; destruct (Rlt_dec a b); split; intros; easy. Qed.

Lemma gtb_spec a b : JS.gtb a b = true <-> a > b.
Proof. unfold JS.gtb; destruct (Rgt_dec a b); split; intros; easy. Qed.

(** The floor of a real is the integer just below it. *)
Lemma floor_bounds (x : R) : IZR (Int_part x) <= x < IZR (Int_part x) + 1.
Proof. destruct (base_Int_part x); lra. Qed.

Lemma floor_unique (x : R) (z : Z) : IZR z <= x < IZR z + 1 -> Int_part x = z.
Proof. intros H; symmetry; apply Int_part_spec; lra. Qed.

(** Bounds on a quotient, cleared of the division. *)
Lemma div_bounds (a p : R) (z : Z) :
  0 < p -> (IZR z <= a / p < IZR z + 1 <-> p * IZR z <= a < p * IZR z + p).
Proof.
  intros Hp.
  assert (E : a = (a / p) * p) by (field; lra).
  split; intros [H1 H2].
  - split; rewrite E; nra.
  - split.
    + apply (Rmult_le_reg_r p); [assumption | rewrite <- E; lra].
    + apply (Rmult_lt_reg_r p); [assumption | rewrite <- E; lra].
Qed.

Lemma trunc_small (x : R) : 0 <= x < 1 -> JS.trunc x = 0%Z.
Proof.
  intros H; unfold JS.trunc.
  destruct (Rle_dec 0 x); [| lra].
  apply floor_unique; simpl; lra.
Qed.

Lemma rem_small (a p : R) : 0 < p -> 0 <= a < p -> JS.rem a p = a.
Proof.
  intros Hp Ha; unfold JS.rem.
  rewrite trunc_small; [simpl; ring |].
  assert (H : 0 <= a / p < 0 + 1) by (apply (div_bounds a p 0 Hp); lra).
  lra.
Qed.

(** A non-negative dividend: [%] is the remainder of the floor division. *)
Lemma rem_nonneg (a p : R) :
  0 < p -> 0 <= a -> JS.rem a p = a - p * IZR (Int_part (a / p)).
Proof.
  intros Hp Ha; unfold JS.rem, JS.trunc.
  destruct (Rle_dec 0 (a / p)) as [_ | n]; [reflexivity |].
  exfalso; apply n.
  apply Rmult_le_pos; [lra | left; now apply Rinv_0_lt_compat].
Qed.

(** A negative dividend: [%] mirrors the remainder of the opposite. *)
Lemma rem_neg (a p : R) :
  0 < p -> a < 0 -> JS.rem a p = - (- a - p * IZR (Int_part (- a / p))).
Proof.
  intros Hp Ha; unfold JS.rem, JS.trunc.
  destruct (Rle_dec 0 (a / p)) as [l | _].
  - exfalso.
    assert (a / p < 0); [| lra].
    assert (E : a / p = - ((- a) * / p)) by (unfold Rdiv; ring).
    rewrite E.
    assert (0 < (- a) * / p); [| lra].
    apply Rmult_lt_0_compat; [lra | now apply Rinv_0_lt_compat].
  - replace (- (a / p)) with (- a / p) by (unfold Rdiv; ring).
    rewrite opp_IZR; ring.
Qed.

End JSFacts.

(** ** The verticality test *)

Lemma two_pi_bounds : 6 < PI * 2 <= 8.
Proof. assert (H1 := PI2_3_2); assert (H2 := PI_4); lra. Qed.

(** The normalized angle lies in [[0, 2 * PI)] and differs from the angle
    by whole turns. *)
Lemma normalize_angle_range (theta : R) :
  0 <= normalize_angle theta < PI * 2.
Proof.
  unfold normalize_angle.
  assert (Hp : 0 < PI * 2) by (assert (H := two_pi_bounds); lra).
  assert (H := JSFacts.floor_bounds (theta / (PI * 2))).
  apply (JSFacts.div_bounds theta (PI * 2) _ Hp) in H.
  lra.
Qed.

Lemma normalize_angle_turns (theta : R) :
  exists k : Z, theta = normalize_angle theta + IZR k * (PI * 2).
Proof.
  exists (Int_part (theta / (PI * 2))); unfold normalize_angle; ring.
Qed.

(** How the absolute value of the remainder relates to the normalized
    angle: they agree for a non-negative angle, and mirror each other
    around [PI] for a negative one. *)
Lemma abs_rem_normalize (a : R) :
  let s := Rabs (JS.rem a (PI * 2)) in
  0 <= s < PI * 2 /\
  (normalize_angle a = s \/ (0 < s /\ normalize_angle a = PI * 2 - s)).
Proof.
  assert (Hp : 0 < PI * 2) by (assert (H := two_pi_bounds); lra).
  assert (Hn := normalize_angle_range a).
  destruct (Rle_dec 0 a) as [Ha | Ha].
  - cbv zeta. rewrite (JSFacts.rem_nonneg a _ Hp Ha).
    fold (normalize_angle a).
    rewrite Rabs_pos_eq by lra.
    split; [lra | now left].
  - assert (Ha' : a < 0) by lra.
    cbv zeta. rewrite (JSFacts.rem_neg a _ Hp Ha').
    set (m := Int_part (- a / (PI * 2))).
    assert (Hm := JSFacts.floor_bounds (- a / (PI * 2))); fold m in Hm.
    apply (JSFacts.div_bounds (- a) (PI * 2) _ Hp) in Hm.
    rewrite Rabs_Ropp, Rabs_pos_eq by lra.
    split; [lra |].
    unfold normalize_angle.
    destruct (Req_dec (- a - PI * 2 * IZR m) 0) as [Hz | Hz].
    + left.
      assert (E : Int_part (a / (PI * 2)) = (- m)%Z).
      { apply JSFacts.floor_unique.
        apply (JSFacts.div_bounds a (PI * 2) _ Hp).
        rewrite opp_IZR; lra. }
      rewrite E, opp_IZR; lra.
    + right.
      assert (E : Int_part (a / (PI * 2)) = (- m - 1)%Z).
      { apply JSFacts.floor_unique.
        apply (JSFacts.div_bounds a (PI * 2) _ Hp).
        rewrite minus_IZR, opp_IZR; lra. }
      rewrite E, minus_IZR, opp_IZR; lra.
Qed.

(** C1.  For every real angle, the test the collision listener computes
    with [%] and [Math.abs] is true exactly when the angle normalized into
    [[0, 2 * PI)] is below 0.8 or above [2 * PI - 0.8]; for an angle given
    in [[0, 2 * PI)] this is the tolerance test on the angle itself; and the
    test is true just below 0.8 and false just above it. *)
Theorem isVertical_iff_normalized :
  (forall a : R, isVertical a = true <-> spec_isVertical a) /\
  (forall theta : R, 0 <= theta < PI * 2 ->
     (isVertical theta = true <-> theta < 0.8 \/ theta > PI * 2 - 0.8)) /\
  (forall eps : R, 0 < eps <= 0.8 -> isVertical (0.8 - eps) = true) /\
  (forall eps : R, 0 < eps -> 0.8 + eps <= PI * 2 - 0.8 ->
     isVertical (0.8 + eps) = false).
Proof.
  assert (Hp := two_pi_bounds).
  assert (Main : forall a : R, isVertical a = true <-> spec_isVertical a).
  { intros a. unfold isVertical, spec_isVertical. cbv zeta.
    destruct (abs_rem_normalize a) as [Hs Hcase]. cbv zeta in Hs, Hcase.
    rewrite orb_true_iff, JSFacts.ltb_spec, JSFacts.gtb_spec.
    destruct Hcase as [E | [Hpos E]]; rewrite E; lra. }
  assert (Id : forall theta, 0 <= theta < PI * 2 -> normalize_angle theta = theta).
  { intros theta Ht. unfold normalize_angle.
    rewrite <- JSFacts.rem_nonneg by lra.
    apply JSFacts.rem_small; lra. }
  split; [exact Main |].
  split; [| split].
  - intros theta Ht. rewrite Main. unfold spec_isVertical. rewrite (Id theta Ht).
    reflexivity.
  - intros eps He. apply Main. unfold spec_isVertical.
    rewrite Id by lra. left; lra.
  - intros eps He Hle.
    destruct (isVertical (0.8 + eps)) eqn:E; [| reflexivity].
    apply Main in E. unfold spec_isVertical in E.
    rewrite Id in E by lra. lra.
Qed.

(** The test at a few angles: a blade tilted by 0.7, by 0.9, and by half
    a radian the other way. *)
Lemma isVertical_iff_normalized_witness :
  isVertical (0.8 - 0.1) = true /\ isVertical (0.8 + 0.1) = false /\
  isVertical (- 0.5) = true.
Proof.
  destruct isVertical_iff_normalized as [H1 [_ [H3 H4]]].
  assert (Hp := two_pi_bounds).
  split; [apply H3; lra | split; [apply H4; lra |]].
  apply H1. right. unfold normalize_angle.
  assert (E : Int_part (- 0.5 / (PI * 2)) = (- 1)%Z).
  { apply JSFacts.floor_unique, JSFacts.div_bounds; lra. }
  rewrite E; lra.
Defined.

(** ** Saving the score *)

Lemma sort_insert_perm (compareFn : Z -> Z -> Z) (a : Z) (l : list Z) :
  Permutation (sort_insert compareFn a l) (a :: l).
Proof.
  induction l as [| b l IH]; simpl.
  - apply Permutation_refl.
  - destruct (compareFn a b <=? 0)%Z.
    + apply Permutation_refl.
    + eapply perm_trans; [apply perm_skip, IH | apply perm_swap].
Qed.

Lemma Array_sort_perm (compareFn : Z -> Z -> Z) (l : list Z) :
  Permutation (Array_sort compareFn l) l.
Proof.
  induction l as [| a l IH]; simpl.
  - apply perm_nil.
  - eapply perm_trans; [apply sort_insert_perm | apply perm_skip, IH].
Qed.

Lemma sort_insert_descending (a : Z) (l : list Z) :
  descending l -> descending (sort_insert (fun a b => (b - a)%Z) a l).
Proof.
  unfold descending.
  induction l as [| b l IH]; intros Hl; simpl.
  - constructor; constructor.
  - inversion Hl as [| ? ? Hl' Hb]; subst.
    destruct (b - a <=? 0)%Z eqn:E.
    + apply Z.leb_le in E.
      constructor; [assumption |].
      constructor; [lia |].
      eapply Forall_impl; [| exact Hb]. simpl; intros; lia.
    + apply Z.leb_gt in E.
      constructor; [apply IH, Hl' |].
      eapply Permutation_Forall.
      * apply Permutation_sym, sort_insert_perm.
      * constructor; [lia | assumption].
Qed.

Lemma Array_sort_descending (l : list Z) :
  descending (Array_sort (fun a b => (b - a)%Z) l).
Proof.
  induction l as [| a l IH]; simpl.
  - constructor.
  - apply sort_insert_descending, IH.
Qed.

(** A sorted list cut in two: both halves are sorted and nothing in the
    tail exceeds anything in the head. *)
Lemma descending_split (l1 l2 : list Z) :
  descending (l1 ++ l2) ->
  descending l1 /\ descending l2 /\
  (forall a b, In a l1 -> In b l2 -> (b <= a)%Z).
Proof.
  unfold descending.
  induction l1 as [| c l1 IH]; simpl; intros H.
  - split; [constructor | split; [assumption | intros a b []]].
  - inversion H as [| ? ? Hs Hc]; subst.
    destruct (IH Hs) as [H1 [H2 H3]].
    rewrite Forall_app in Hc; destruct Hc as [Hc1 Hc2].
    split; [constructor; assumption |].
    split; [assumption |].
    intros a b [-> | Ha] Hb.
    + rewrite Forall_forall in Hc2; auto.
    + auto.
Qed.

(** C7.  After [saveScore], whatever [highScores] held before, the new
    [highScores] is in descending order, has at most three entries, is
    what [localStorage] now holds, and keeps the three largest values of
    the previous entries together with the session's sword count: the
    entries it drops are no larger than any entry it keeps. *)
Theorem saveScore_top3 (s : State) :
  let kept := highScores (saveScore s) in
  descending kept /\
  (List.length kept <= 3)%nat /\
  List.length kept = Nat.min 3 (List.length (highScores s) + 1) /\
  excalibur_scores (saveScore s) = Some kept /\
  exists dropped : list Z,
    Permutation (kept ++ dropped) (highScores s ++ [swordsOnScreen s]) /\
    (forall a b, In a kept -> In b dropped -> (b <= a)%Z).
Proof.
  cbv zeta. unfold saveScore.
  cbn [highScores excalibur_scores set_excalibur_scores set_highScores].
  unfold Array_slice0.
  set (pushed := highScores s ++ [swordsOnScreen s]).
  set (sorted := Array_sort (fun a b => (b - a)%Z) pushed).
  assert (Hd : descending (firstn 3 sorted ++ skipn 3 sorted)).
  { rewrite firstn_skipn. apply Array_sort_descending. }
  destruct (descending_split _ _ Hd) as [H1 [_ H3]].
  split; [exact H1 |].
  split; [apply firstn_le_length |].
  split.
  { rewrite length_firstn.
    unfold sorted.
    rewrite (Permutation_length (Array_sort_perm (fun a b => (b - a)%Z) pushed)).
    unfold pushed; rewrite length_app; reflexivity. }
  split; [reflexivity |].
  exists (skipn 3 sorted).
  split; [| exact H3].
  rewrite firstn_skipn. apply Array_sort_perm.
Qed.

(** A session ending with four swords against stored scores 5, 3, 1. *)
Example saveScore_sample :
  highScores
    (saveScore (set_swordsOnScreen 4 (set_highScores [5; 3; 1]%Z Sample.playing)))
  = [5; 4; 3]%Z.
Proof. reflexivity. Qed.

(** ** The terrain loops *)

Lemma resolution_pos : 0 < resolution.
Proof. unfold resolution; lra. Qed.

(** The samples of a span: [resolution * j] stays within the span for
    every [j] below [sampleCount], and the next multiple is beyond it. *)
Lemma sampleCount_spec (w : R) :
  (forall j : nat, (j < sampleCount w)%nat -> resolution * INR j <= w) /\
  w < resolution * INR (sampleCount w).
Proof.
  unfold sampleCount.
  destruct (Rle_dec 0 w) as [Hw | Hw].
  - assert (H := JSFacts.floor_bounds (w / resolution)).
    apply (JSFacts.div_bounds w resolution _ resolution_pos) in H.
    set (K := Int_part (w / resolution)) in *.
    assert (HK : (0 <= K)%Z).
    { assert (Hlt : IZR (-1) < IZR K).
      { assert (Hr := resolution_pos). simpl. nra. }
      apply lt_IZR in Hlt. lia. }
    assert (E : INR (Z.to_nat K) = IZR K).
    { rewrite INR_IZR_INZ, Z2Nat.id by assumption. reflexivity. }
    split.
    + intros j Hj.
      assert (Hle : INR j <= INR (Z.to_nat K)) by (apply le_INR; lia).
      rewrite E in Hle.
      assert (Hr := resolution_pos). nra.
    + rewrite S_INR, E. lra.
  - split; [intros j Hj; lia | simpl; lra].
Qed.

Lemma sampleCount_fuel (w : R) : (sampleCount w < loopFuel w)%nat.
Proof.
  unfold sampleCount, loopFuel, resolution.
  destruct (Rle_dec 0 w); lia.
Qed.

Section PassFacts.

Variable noise2D : R -> R -> R.
Variables startX width surfaceY : R.

(** The first loop, entered at the [i]-th sample with [n] samples left,
    pushes those [n] vertices and exits, given fuel for [n + 1] tests. *)
Lemma topPass_run (n : nat) :
  forall (fuel i : nat) (x : R) (acc : list Vector.t),
    (n < fuel)%nat ->
    x = resolution * INR i ->
    (forall j : nat, (j < n)%nat -> resolution * INR (i + j) <= width) ->
    width < resolution * INR (i + n) ->
    topPass noise2D startX width surfaceY fuel x acc
    = Some (acc ++ map (fun j => topVertex noise2D startX surfaceY (resolution * INR j)) (seq i n)).
Proof.
  induction n as [| n IH]; intros fuel i x acc Hfuel Hx Hin Hout;
    (destruct fuel as [| fuel]; [lia |]); simpl.
  - rewrite Nat.add_0_r in Hout.
    rewrite JSFacts.leb_false by lra.
    now rewrite app_nil_r.
  - assert (H0 := Hin 0%nat ltac:(lia)). rewrite Nat.add_0_r in H0.
    rewrite JSFacts.leb_true by lra.
    rewrite (IH fuel (S i)).
    + rewrite <- app_assoc. simpl. now rewrite Hx.
    + lia.
    + rewrite S_INR, Hx. ring.
    + intros j Hj. specialize (Hin (S j) ltac:(lia)).
      now rewrite Nat.add_succ_r in Hin.
    + now rewrite Nat.add_succ_r in Hout.
Qed.

(** The second loop, likewise, walking back from the far edge. *)
Lemma bottomPass_run (n : nat) :
  forall (fuel i : nat) (x : R) (acc : list Vector.t),
    (n < fuel)%nat ->
    x = width - resolution * INR i ->
    (forall j : nat, (j < n)%nat -> resolution * INR (i + j) <= width) ->
    width < resolution * INR (i + n) ->
    bottomPass noise2D startX width surfaceY fuel x acc
    = Some (acc ++ map (fun j =>
                bottomVertex noise2D startX width surfaceY
                  (width - resolution * INR j)) (seq i n)).
Proof.
  induction n as [| n IH]; intros fuel i x acc Hfuel Hx Hin Hout;
    (destruct fuel as [| fuel]; [lia |]); simpl.
  - rewrite Nat.add_0_r in Hout.
    rewrite JSFacts.geb_false by lra.
    now rewrite app_nil_r.
  - assert (H0 := Hin 0%nat ltac:(lia)). rewrite Nat.add_0_r in H0.
    rewrite JSFacts.geb_true by lra.
    rewrite (IH fuel (S i)).
    + rewrite <- app_assoc. simpl. now rewrite Hx.
    + lia.
    + rewrite S_INR, Hx. ring.
    + intros j Hj. specialize (Hin (S j) ltac:(lia)).
      now rewrite Nat.add_succ_r in Hin.
    + now rewrite Nat.add_succ_r in Hout.
Qed.

(** Both loops run to their exit on the fuel [createIsland] gives them. *)
Lemma topPass_total (acc : list Vector.t) :
  topPass noise2D startX width surfaceY (loopFuel width) 0 acc
  = Some (acc ++ map (fun j => topVertex noise2D startX surfaceY (resolution * INR j))
                     (seq 0 (sampleCount width))).
Proof.
  destruct (sampleCount_spec width) as [Hin Hout].
  apply topPass_run.
  - apply sampleCount_fuel.
  - simpl; ring.
  - exact Hin.
  - exact Hout.
Qed.

Lemma bottomPass_total (acc : list Vector.t) :
  bottomPass noise2D startX width surfaceY (loopFuel width) width acc
  = Some (acc ++ map (fun j =>
                bottomVertex noise2D startX width surfaceY
                  (width - resolution * INR j))
                     (seq 0 (sampleCount width))).
Proof.
  destruct (sampleCount_spec width) as [Hin Hout].
  apply bottomPass_run.
  - apply sampleCount_fuel.
  - simpl; ring.
  - exact Hin.
  - exact Hout.
Qed.

End PassFacts.

(** ** The outline [createIsland] builds *)

Lemma island_width_quarter (canvas_w : Z) :
  island_width canvas_w = IZR canvas_w * 0.25.
Proof.
  unfold island_width, island_endX, island_startX,
    CONFIG.ISLAND.END_PCT, CONFIG.ISLAND.START_PCT. lra.
Qed.

Lemma island_width_nonneg (canvas_w : Z) :
  (0 <= canvas_w)%Z -> 0 <= island_width canvas_w.
Proof.
  intros H. rewrite island_width_quarter.
  apply IZR_le in H. lra.
Qed.

Lemma island_width_pos (canvas_w : Z) :
  (0 < canvas_w)%Z -> 0 < island_width canvas_w.
Proof.
  intros H. rewrite island_width_quarter.
  apply IZR_lt in H. lra.
Qed.

Lemma topVertices_eq (noise2D : R -> R -> R) (canvas_w canvas_h : Z) :
  topVertices noise2D canvas_w canvas_h
  = Some (map (fun j => topVertex noise2D (island_startX canvas_w)
                          (island_surfaceY canvas_h) (resolution * INR j))
              (seq 0 (sampleCount (island_width canvas_w)))).
Proof. unfold topVertices. cbv zeta. now rewrite topPass_total. Qed.

Lemma bottomVertices_eq (noise2D : R -> R -> R) (canvas_w canvas_h : Z) :
  bottomVertices noise2D canvas_w canvas_h
  = Some (map (fun j => bottomVertex noise2D (island_startX canvas_w)
                          (island_width canvas_w) (island_surfaceY canvas_h)
                          (island_width canvas_w - resolution * INR j))
              (seq 0 (sampleCount (island_width canvas_w)))).
Proof. unfold bottomVertices. cbv zeta. now rewrite bottomPass_total. Qed.

(** The whole outline: the first loop's vertices, then the second's. *)
Lemma islandVertices_eq (noise2D : R -> R -> R) (canvas_w canvas_h : Z) :
  exists top bottom : list Vector.t,
    topVertices noise2D canvas_w canvas_h = Some top /\
    bottomVertices noise2D canvas_w canvas_h = Some bottom /\
    islandVertices noise2D canvas_w canvas_h = Some (top ++ bottom).
Proof.
  eexists; eexists.
  split; [apply topVertices_eq |].
  split; [apply bottomVertices_eq |].
  unfold islandVertices. cbv zeta.
  rewrite topVertices_eq. now rewrite bottomPass_total.
Qed.

(** [createIsland] always gets its outline: the loops terminate. *)
Lemma islandVertices_total (noise2D : R -> R -> R) (canvas_w canvas_h : Z) :
  exists vertices : list Vector.t,
    islandVertices noise2D canvas_w canvas_h = Some vertices.
Proof.
  destruct (islandVertices_eq noise2D canvas_w canvas_h) as (t & b & _ & _ & H).
  now exists (t ++ b).
Qed.

(** The belly term never lifts the bottom above the nominal surface. *)
Lemma arc_nonneg (x width : R) :
  0 < width -> 0 <= x <= width -> 0 <= sin ((x / width) * PI).
Proof.
  intros Hw [H0 H1].
  assert (Hpi := PI_RGT_0).
  assert (Hq : 0 <= x / width <= 1).
  { destruct (Req_dec x width) as [-> | Hne].
    - unfold Rdiv. rewrite Rinv_r by lra. lra.
    - assert (Hq : 0 <= x / width < 0 + 1)
        by (apply (JSFacts.div_bounds x width 0 Hw); lra).
      lra. }
  apply sin_ge_0; nra.
Qed.

(** The sample count of a span lying between two multiples of the step. *)
Lemma sampleCount_between (w : R) (k : Z) :
  (0 <= k)%Z ->
  resolution * IZR k <= w < resolution * IZR k + resolution ->
  sampleCount w = S (Z.to_nat k).
Proof.
  intros Hk Hw. unfold sampleCount.
  assert (Hr := resolution_pos).
  assert (H0 : 0 <= IZR k) by (apply IZR_le in Hk; assumption).
  destruct (Rle_dec 0 w) as [_ | n]; [| exfalso; apply n; nra].
  f_equal. f_equal.
  apply JSFacts.floor_unique.
  now apply (JSFacts.div_bounds w resolution k Hr).
Qed.

(** Every vertex of the bottom pass sits at a sample [x] of the span, with
    the height the second loop computes there. *)
Lemma bottomVertices_samples (noise2D : R -> R -> R) (canvas_w canvas_h : Z) :
  exists bottom : list Vector.t,
    bottomVertices noise2D canvas_w canvas_h = Some bottom /\
    forall v : Vector.t, In v bottom ->
      exists x : R,
        0 <= x <= island_width canvas_w /\
        v = bottomVertex noise2D (island_startX canvas_w)
              (island_width canvas_w) (island_surfaceY canvas_h) x.
Proof.
  eexists. split; [apply bottomVertices_eq |].
  intros v Hv. apply in_map_iff in Hv. destruct Hv as (j & <- & Hj).
  apply in_seq in Hj.
  destruct (sampleCount_spec (island_width canvas_w)) as [Hin _].
  assert (Hle := Hin j ltac:(lia)).
  assert (Hr := resolution_pos).
  assert (0 <= INR j) by apply pos_INR.
  eexists. split; [| reflexivity]. nra.
Qed.

(** C3 as stated fails.  On a 240 by 400 canvas with a noise source that
    returns -0.5, the first vertex of the bottom pass (at the far edge,
    where the sine term vanishes) lies at height 220, above the nominal
    surface at 250. *)
Lemma bottom_vertex_above_surface :
  bounded_noise (fun _ _ : R => - 0.5) /\
  island_surfaceY 400 = 250 /\
  exists (bottom : list Vector.t) (v : Vector.t),
    bottomVertices (fun _ _ : R => - 0.5) 240 400 = Some bottom /\
    hd_error bottom = Some v /\
    Vector.y v = 220 /\
    Vector.y v < island_surfaceY 400.
Proof.
  assert (Hs : island_surfaceY 400 = 250) by (unfold island_surfaceY; lra).
  split; [intros a b; lra |].
  split; [exact Hs |].
  assert (Hw : island_width 240 = 60) by (rewrite island_width_quarter; lra).
  assert (Hn : sampleCount (island_width 240) = 5%nat).
  { rewrite Hw. apply (sampleCount_between 60 4); [lia | unfold resolution; lra]. }
  eexists; eexists.
  split; [apply bottomVertices_eq |].
  rewrite Hn. cbn [seq map hd_error].
  split; [reflexivity |].
  assert (Hy : Vector.y
                 (bottomVertex (fun _ _ : R => - 0.5) (island_startX 240)
                    (island_width 240) (island_surfaceY 400)
                    (island_width 240 - resolution * INR 0)) = 220).
  { unfold bottomVertex. cbn [Vector.y INR]. rewrite Hw, Hs.
    replace ((60 - resolution * 0) / 60 * PI) with PI
      by (unfold resolution; field).
    rewrite sin_PI. unfold CONFIG.ISLAND.DEPTH. lra. }
  rewrite Hy, Hs. split; lra.
Qed.

(** C3, amended.  On a canvas of positive width, so that the span is
    not empty, and with noise samples in [[-1, 1]], every vertex of the
    bottom pass sits at a sample [x] of the span where the sine term is
    non-negative, so its height is at least the nominal surface minus the
    bottom noise amplitude of 60, and at least the nominal surface itself
    wherever the noise sample is non-negative. *)
Theorem bottom_pass_thickness
    (noise2D : R -> R -> R) (canvas_w canvas_h : Z) :
  bounded_noise noise2D ->
  (0 < canvas_w)%Z ->
  exists bottom : list Vector.t,
    0 < island_width canvas_w /\
    bottomVertices noise2D canvas_w canvas_h = Some bottom /\
    bottom <> [] /\
    forall v : Vector.t, In v bottom ->
      let x := Vector.x v - island_startX canvas_w in
      let noiseVal := noise2D ((x + island_startX canvas_w) * 0.01) 100 in
      let arc := sin ((x / island_width canvas_w) * PI) in
      0 <= x <= island_width canvas_w /\
      0 <= arc /\
      Vector.y v
      = island_surfaceY canvas_h + CONFIG.ISLAND.DEPTH * arc + noiseVal * 60 /\
      island_surfaceY canvas_h - 60 <= Vector.y v /\
      (0 <= noiseVal -> island_surfaceY canvas_h <= Vector.y v).
Proof.
  intros Hnoise Hw.
  assert (Hpos := island_width_pos canvas_w Hw).
  destruct (bottomVertices_samples noise2D canvas_w canvas_h) as (bottom & E & Hb).
  exists bottom. split; [exact Hpos |]. split; [exact E |].
  split.
  { rewrite bottomVertices_eq in E. injection E as <-.
    unfold sampleCount.
    destruct (Rle_dec 0 (island_width canvas_w)) as [_ | n]; [discriminate |].
    exfalso; apply n. lra. }
  intros v Hv. destruct (Hb v Hv) as (x0 & Hx0 & ->).
  unfold bottomVertex. cbn [Vector.x Vector.y]. cbv zeta.
  replace (island_startX canvas_w + x0 - island_startX canvas_w) with x0 by ring.
  assert (Harc := arc_nonneg x0 (island_width canvas_w) Hpos Hx0).
  assert (Hn := Hnoise ((x0 + island_startX canvas_w) * 0.01) 100).
  unfold CONFIG.ISLAND.DEPTH in *.
  repeat split; lra.
Qed.

Lemma bottom_pass_thickness_witness :
  exists bottom : list Vector.t,
    0 < island_width 240 /\
    bottomVertices (fun _ _ : R => 0) 240 400 = Some bottom /\
    bottom <> [] /\
    forall v : Vector.t, In v bottom ->
      let x := Vector.x v - island_startX 240 in
      let noiseVal := (fun _ _ : R => 0) ((x + island_startX 240) * 0.01) 100 in
      let arc := sin ((x / island_width 240) * PI) in
      0 <= x <= island_width 240 /\
      0 <= arc /\
      Vector.y v
      = island_surfaceY 400 + CONFIG.ISLAND.DEPTH * arc + noiseVal * 60 /\
      island_surfaceY 400 - 60 <= Vector.y v /\
      (0 <= noiseVal -> island_surfaceY 400 <= Vector.y v).
Proof.
  apply (bottom_pass_thickness (fun _ _ : R => 0) 240 400).
  - intros a b; lra.
  - lia.
Defined.

(** ** The shape of the vertex sequence *)

Lemma last_map_seq {A : Type} (f : nat -> A) (k : nat) (d : A) (l : list A) :
  last (l ++ map f (seq 0 (S k))) d = f k.
Proof.
  rewrite seq_S, map_app, app_assoc. simpl. apply last_last.
Qed.

Lemma ceil_near_floor (r : R) :
  (Int_part r <= ceil r <= Int_part r + 1)%Z.
Proof.
  unfold ceil.
  assert (H1 := JSFacts.floor_bounds r).
  assert (H2 := JSFacts.floor_bounds (- r)).
  set (K := Int_part r) in *. set (M := Int_part (- r)) in *.
  split.
  - apply le_IZR. rewrite opp_IZR. lra.
  - assert (Hlt : IZR (- M) < IZR (K + 2)).
    { rewrite opp_IZR, plus_IZR. lra. }
    apply lt_IZR in Hlt. lia.
Qed.

(** C9 as stated fails.  On a 240 by 400 canvas, with a noise source that
    returns 1 along the line the top pass samples and -1 along the line
    the bottom pass samples, the outline starts at (72, 290) and ends at
    (72, 190): the two ends are 100 apart, more than one step of 15. *)
Lemma outline_ends_apart :
  bounded_noise Sample.slanted_noise /\
  exists (vertices : list Vector.t) (first final : Vector.t),
    islandVertices Sample.slanted_noise 240 400 = Some vertices /\
    hd_error vertices = Some first /\
    last vertices first = final /\
    first = Vector.mk 72 290 /\
    final = Vector.mk 72 190 /\
    distance first final = 100 /\
    resolution < distance first final.
Proof.
  split.
  { intros a b. unfold Sample.slanted_noise, Rmax, Rmin.
    destruct (Rle_dec 1 (1 - b / 50));
      match goal with |- context [Rle_dec ?x ?y] => destruct (Rle_dec x y) end;
      lra. }
  assert (Hs : island_surfaceY 400 = 250) by (unfold island_surfaceY; lra).
  assert (Hx : island_startX 240 = 72)
    by (unfold island_startX, CONFIG.ISLAND.START_PCT; lra).
  assert (Hw : island_width 240 = 60) by (rewrite island_width_quarter; lra).
  assert (Hn : sampleCount (island_width 240) = 5%nat).
  { rewrite Hw. apply (sampleCount_between 60 4); [lia | unfold resolution; lra]. }
  assert (N0 : forall a : R, Sample.slanted_noise a 0 = 1).
  { intros a. unfold Sample.slanted_noise, Rmax, Rmin.
    destruct (Rle_dec 1 (1 - 0 / 50));
      match goal with |- context [Rle_dec ?x ?y] => destruct (Rle_dec x y) end;
      lra. }
  assert (N100 : forall a : R, Sample.slanted_noise a 100 = -1).
  { intros a. unfold Sample.slanted_noise, Rmax, Rmin.
    destruct (Rle_dec 1 (1 - 100 / 50));
      match goal with |- context [Rle_dec ?x ?y] => destruct (Rle_dec x y) end;
      lra. }
  eexists; eexists; eexists.
  split.
  { unfold islandVertices. cbv zeta.
    rewrite topVertices_eq, bottomPass_total, Hn. reflexivity. }
  split; [reflexivity |].
  split; [apply (last_map_seq _ 4) |].
  assert (E1 : topVertex Sample.slanted_noise
                 (island_startX 240) (island_surfaceY 400)
                 (resolution * INR 0) = Vector.mk 72 290).
  { unfold topVertex, resolution. cbn [INR]. rewrite Hx, Hs, N0.
    f_equal; lra. }
  assert (E2 : bottomVertex Sample.slanted_noise
                 (island_startX 240) (island_width 240) (island_surfaceY 400)
                 (island_width 240 - resolution * INR 4) = Vector.mk 72 190).
  { unfold bottomVertex, resolution, CONFIG.ISLAND.DEPTH. cbn [INR].
    rewrite Hx, Hs, Hw, N100.
    replace ((60 - 15 * (1 + 1 + 1 + 1)) / 60 * PI) with 0 by field.
    rewrite sin_0. f_equal; lra. }
  cbn [seq map hd]. rewrite E1, E2.
  split; [reflexivity |]. split; [reflexivity |].
  assert (Hd : distance (Vector.mk 72 290) (Vector.mk 72 190) = 100).
  { unfold distance. cbn [Vector.x Vector.y].
    replace ((72 - 72) * (72 - 72) + (290 - 190) * (290 - 190))
      with (100 * 100) by ring.
    apply sqrt_square; lra. }
  rewrite Hd. unfold resolution. split; lra.
Qed.

(** C9, amended.  Over a span of width [w] sampled every 15, each pass
    pushes [floor (w / 15) + 1] vertices, so the outline has twice that
    many, which is [2 * ceil (w / 15)] plus 0 or 2.  The outline starts at
    the near edge and its last vertex lies horizontally less than one
    step from its first.  The last vertex of the top pass lies within one
    step before the far edge and never beyond it, whether or not the
    step divides the span. *)
Theorem island_outline_layout
    (noise2D : R -> R -> R) (canvas_w canvas_h : Z) :
  (0 <= canvas_w)%Z ->
  let w := island_width canvas_w in
  let n := sampleCount w in
  exists top bottom : list Vector.t,
    topVertices noise2D canvas_w canvas_h = Some top /\
    bottomVertices noise2D canvas_w canvas_h = Some bottom /\
    islandVertices noise2D canvas_w canvas_h = Some (top ++ bottom) /\
    n = S (Z.to_nat (Int_part (w / resolution))) /\
    List.length top = n /\ List.length bottom = n /\
    List.length (top ++ bottom) = (2 * n)%nat /\
    (2 * ceil (w / resolution) <= Z.of_nat (List.length (top ++ bottom))
     <= 2 * ceil (w / resolution) + 2)%Z /\
    (exists first : Vector.t,
       hd_error (top ++ bottom) = Some first /\
       Vector.x first = island_startX canvas_w /\
       0 <= Vector.x (last (top ++ bottom) first) - Vector.x first
         < resolution) /\
    (exists first : Vector.t,
       hd_error top = Some first /\
       island_endX canvas_w - resolution < Vector.x (last top first)
         <= island_endX canvas_w).
Proof.
  intros Hw w n.
  assert (Hw0 : 0 <= w) by now apply island_width_nonneg.
  assert (Hn : n = S (Z.to_nat (Int_part (w / resolution)))).
  { unfold n, sampleCount. destruct (Rle_dec 0 w); [reflexivity | contradiction]. }
  set (k := Z.to_nat (Int_part (w / resolution))) in Hn.
  destruct (sampleCount_spec w) as [Hin Hout]. fold n in Hin, Hout.
  assert (Hk := Hin k ltac:(lia)).
  rewrite Hn, S_INR in Hout.
  assert (Hr := resolution_pos).
  exists (map (fun j => topVertex noise2D (island_startX canvas_w)
                          (island_surfaceY canvas_h) (resolution * INR j))
              (seq 0 n)).
  exists (map (fun j => bottomVertex noise2D (island_startX canvas_w)
                          w (island_surfaceY canvas_h)
                          (w - resolution * INR j))
              (seq 0 n)).
  split; [apply topVertices_eq |].
  split; [apply bottomVertices_eq |].
  split.
  { unfold islandVertices. cbv zeta.
    rewrite topVertices_eq. apply bottomPass_total. }
  split; [exact Hn |].
  split; [now rewrite length_map, length_seq |].
  split; [now rewrite length_map, length_seq |].
  assert (Hlen : List.length
            (map (fun j => topVertex noise2D (island_startX canvas_w)
                             (island_surfaceY canvas_h) (resolution * INR j))
                 (seq 0 n) ++
             map (fun j => bottomVertex noise2D (island_startX canvas_w)
                             w (island_surfaceY canvas_h)
                             (w - resolution * INR j))
                 (seq 0 n)) = (2 * n)%nat).
  { rewrite length_app, !length_map, !length_seq. lia. }
  split; [exact Hlen |].
  split.
  { rewrite Hlen, Hn.
    assert (Hc := ceil_near_floor (w / resolution)).
    assert (HK : (0 <= Int_part (w / resolution))%Z).
    { assert (Hb := JSFacts.floor_bounds (w / resolution)).
      apply (JSFacts.div_bounds w resolution _ Hr) in Hb.
      assert (Hlt : IZR (-1) < IZR (Int_part (w / resolution))) by (simpl; nra).
      apply lt_IZR in Hlt. lia. }
    unfold k. lia. }
  rewrite Hn.
  split.
  - eexists. split; [reflexivity |].
    rewrite last_map_seq.
    cbn [topVertex bottomVertex Vector.x INR].
    split; lra.
  - eexists. split; [reflexivity |].
    rewrite <- (app_nil_l (map _ (seq 0 (S k)))), last_map_seq.
    cbn [topVertex Vector.x].
    fold w. replace (island_endX canvas_w) with (island_startX canvas_w + w)
      by (unfold w, island_width; ring).
    lra.
Qed.

Lemma island_outline_layout_witness :
  exists top bottom : list Vector.t,
    topVertices (fun _ _ : R => 0) 250 400 = Some top /\
    bottomVertices (fun _ _ : R => 0) 250 400 = Some bottom /\
    islandVertices (fun _ _ : R => 0) 250 400 = Some (top ++ bottom) /\
    sampleCount (island_width 250)
    = S (Z.to_nat (Int_part (island_width 250 / resolution))) /\
    List.length top = sampleCount (island_width 250) /\
    List.length bottom = sampleCount (island_width 250) /\
    List.length (top ++ bottom) = (2 * sampleCount (island_width 250))%nat /\
    (2 * ceil (island_width 250 / resolution)
     <= Z.of_nat (List.length (top ++ bottom))
     <= 2 * ceil (island_width 250 / resolution) + 2)%Z /\
    (exists first : Vector.t,
       hd_error (top ++ bottom) = Some first /\
       Vector.x first = island_startX 250 /\
       0 <= Vector.x (last (top ++ bottom) first) - Vector.x first
         < resolution) /\
    (exists first : Vector.t,
       hd_error top = Some first /\
       island_endX 250 - resolution < Vector.x (last top first)
         <= island_endX 250).
Proof.
  apply (island_outline_layout (fun _ _ : R => 0) 250 400). lia.
Defined.

(** ** The world as a store of bodies *)

Module WorldFacts.

Lemma lookup_id (w : World.t) (i : nat) (c : Body.t) :
  World.lookup w i = Some c -> Body.id c = i.
Proof.
  induction w as [| d w IH]; simpl; [discriminate |].
  destruct (Nat.eqb (Body.id d) i) eqn:E.
  - intros [= <-]. now apply Nat.eqb_eq.
  - exact IH.
Qed.

Lemma lookup_In (w : World.t) (i : nat) (c : Body.t) :
  World.lookup w i = Some c -> In c w.
Proof.
  induction w as [| d w IH]; simpl; [discriminate |].
  destruct (Nat.eqb (Body.id d) i).
  - intros [= <-]. now left.
  - intros H. right. now apply IH.
Qed.

(** Writing to a body keeps every body in its place. *)
Lemma store_ids (w : World.t) (b : Body.t) :
  map Body.id (World.store w b) = map Body.id w.
Proof.
  induction w as [| d w IH]; simpl; [reflexivity |].
  destruct (Nat.eqb (Body.id d) (Body.id b)) eqn:E; simpl.
  - apply Nat.eqb_eq in E. now rewrite E.
  - now rewrite IH.
Qed.

Lemma store_labels (w : World.t) (b c : Body.t) :
  World.lookup w (Body.id b) = Some c ->
  Body.label b = Body.label c ->
  map Body.label (World.store w b) = map Body.label w.
Proof.
  induction w as [| d w IH]; simpl; [reflexivity |].
  destruct (Nat.eqb (Body.id d) (Body.id b)) eqn:E; simpl.
  - intros [= ->] Hl. now rewrite Hl.
  - intros H Hl. now rewrite IH.
Qed.

Lemma lookup_store_same (w : World.t) (b c : Body.t) :
  World.lookup w (Body.id b) = Some c ->
  World.lookup (World.store w b) (Body.id b) = Some b.
Proof.
  induction w as [| d w IH]; simpl; [discriminate |].
  destruct (Nat.eqb (Body.id d) (Body.id b)) eqn:E; simpl.
  - intros _. now rewrite Nat.eqb_refl.
  - intros H. rewrite E. now apply IH.
Qed.

Lemma lookup_store_other (w : World.t) (b : Body.t) (i : nat) :
  i <> Body.id b ->
  World.lookup (World.store w b) i = World.lookup w i.
Proof.
  intros Hi.
  induction w as [| d w IH]; simpl; [reflexivity |].
  destruct (Nat.eqb (Body.id d) (Body.id b)) eqn:E; simpl.
  - apply Nat.eqb_eq in E.
    assert (En : Nat.eqb (Body.id b) i = false) by (apply Nat.eqb_neq; auto).
    assert (Ed : Nat.eqb (Body.id d) i = false) by (rewrite E; exact En).
    now rewrite En, Ed.
  - destruct (Nat.eqb (Body.id d) i); [reflexivity | exact IH].
Qed.

End WorldFacts.

(** ** The collision listener *)

(** The test passes for a blade tilted by less than 0.8 from upright. *)
Lemma isVertical_upright (theta : R) :
  0 <= theta < 0.8 -> isVertical theta = true.
Proof.
  intros H. unfold isVertical. cbv zeta.
  assert (Hp := two_pi_bounds).
  rewrite JSFacts.rem_small by lra.
  rewrite Rabs_pos_eq by lra.
  now rewrite JSFacts.ltb_true by lra.
Qed.

(** The test fails for a blade lying flat, a quarter turn from upright. *)
Lemma isVertical_flat : isVertical (PI / 2) = false.
Proof.
  unfold isVertical. cbv zeta.
  assert (Hp := two_pi_bounds).
  rewrite JSFacts.rem_small by lra.
  rewrite Rabs_pos_eq by lra.
  rewrite JSFacts.ltb_false by lra.
  now rewrite JSFacts.gtb_false by lra.
Qed.

Lemma pin_fields (sword : Body.t) :
  Body.id (pin sword) = Body.id sword /\
  Body.label (pin sword) = Body.label sword /\
  Body.isStatic (pin sword) = true /\
  Body.position (pin sword) = Body.position sword /\
  Body.angle (pin sword) = Body.angle sword /\
  Body.velocity (pin sword) = Vector.mk 0 0 /\
  Body.angularVelocity (pin sword) = 0 /\
  Body.shape (pin sword) = Body.shape sword.
Proof. repeat split. Qed.

(** What the callback does once the pair has been looked up. *)
Lemma collisionPair_found (s : State) (pair : nat * nat) (bodyA bodyB : Body.t) :
  World.lookup (world s) (fst pair) = Some bodyA ->
  World.lookup (world s) (snd pair) = Some bodyB ->
  collisionPair s pair =
  match identify bodyA bodyB with
  | Some (sword, other) =>
      if negb (Body.isStatic sword) && String.eqb (Body.label other) "ground"
      then if isVertical (Body.angle sword)
           then set_world (World.store (world s) (pin sword)) s
           else s
      else s
  | None => s
  end.
Proof. intros HA HB. unfold collisionPair. now rewrite HA, HB. Qed.

(** A falling sword against the terrain is recognised in either order. *)
Lemma identify_sword_on_ground (bodyA bodyB sword other : Body.t) :
  (sword, other) = (bodyA, bodyB) \/ (sword, other) = (bodyB, bodyA) ->
  sword_on_ground sword other ->
  identify bodyA bodyB = Some (sword, other).
Proof.
  intros Hor (Hl & _ & Hg & _). unfold identify.
  destruct Hor as [[= <- <-] | [= <- <-]].
  - rewrite Hl. reflexivity.
  - rewrite Hg, Hl. reflexivity.
Qed.

(** A pair that is not a falling sword against the terrain changes
    nothing, in a world whose terrain bodies are static. *)
Lemma collisionPair_ignores (s : State) (pair : nat * nat) (bodyA bodyB : Body.t) :
  World.lookup (world s) (fst pair) = Some bodyA ->
  World.lookup (world s) (snd pair) = Some bodyB ->
  grounds_static (world s) ->
  ~ sword_on_ground bodyA bodyB ->
  ~ sword_on_ground bodyB bodyA ->
  collisionPair s pair = s.
Proof.
  intros HA HB Hg HnAB HnBA.
  rewrite (collisionPair_found s pair bodyA bodyB HA HB).
  unfold grounds_static in Hg. rewrite Forall_forall in Hg.
  assert (GA := Hg bodyA (WorldFacts.lookup_In _ _ _ HA)).
  assert (GB := Hg bodyB (WorldFacts.lookup_In _ _ _ HB)).
  unfold identify.
  destruct (String.eqb (Body.label bodyA) "sword") eqn:EA.
  - apply String.eqb_eq in EA.
    destruct (Body.isStatic bodyA) eqn:SA; [reflexivity |].
    destruct (String.eqb (Body.label bodyB) "ground") eqn:EB; [| reflexivity].
    apply String.eqb_eq in EB.
    exfalso. apply HnAB. unfold sword_on_ground. auto.
  - destruct (String.eqb (Body.label bodyB) "sword") eqn:EB; [| reflexivity].
    apply String.eqb_eq in EB.
    destruct (Body.isStatic bodyB) eqn:SB; [reflexivity |].
    destruct (String.eqb (Body.label bodyA) "ground") eqn:EG; [| reflexivity].
    apply String.eqb_eq in EG.
    exfalso. apply HnBA. unfold sword_on_ground. auto.
Qed.

(** C5.  For a collision pair of two bodies of the world: when it puts a
    non-static body labelled sword against the static body labelled
    ground, in either order, and the verticality test passes, the sword
    becomes static with zero linear and angular velocity, keeps its place
    in the world, and nothing else changes; when the test fails, or the
    pair is two swords, or any pair that is not a falling sword against
    the ground, the callback changes nothing. *)
Theorem collisionPair_pins_only_sword_on_ground
    (s : State) (pair : nat * nat) (bodyA bodyB : Body.t) :
  World.lookup (world s) (fst pair) = Some bodyA ->
  World.lookup (world s) (snd pair) = Some bodyB ->
  grounds_static (world s) ->
  let s' := collisionPair s pair in
  (forall sword other : Body.t,
     (sword, other) = (bodyA, bodyB) \/ (sword, other) = (bodyB, bodyA) ->
     sword_on_ground sword other ->
     (isVertical (Body.angle sword) = true ->
      s' = set_world (world s') s /\
      map Body.id (world s') = map Body.id (world s) /\
      (forall i : nat, i <> Body.id sword ->
         World.lookup (world s') i = World.lookup (world s) i) /\
      exists pinned : Body.t,
        World.lookup (world s') (Body.id sword) = Some pinned /\
        Body.isStatic pinned = true /\
        Body.velocity pinned = Vector.mk 0 0 /\
        Body.angularVelocity pinned = 0 /\
        Body.label pinned = Body.label sword /\
        Body.position pinned = Body.position sword /\
        Body.angle pinned = Body.angle sword /\
        Body.shape pinned = Body.shape sword) /\
     (isVertical (Body.angle sword) = false -> s' = s)) /\
  (Body.label bodyA = "sword"%string -> Body.label bodyB = "sword"%string ->
   s' = s) /\
  (~ sword_on_ground bodyA bodyB -> ~ sword_on_ground bodyB bodyA -> s' = s).
Proof.
  intros HA HB Hg s'.
  split; [| split].
  - intros sword other Hor Hsog.
    assert (Hid := identify_sword_on_ground _ _ _ _ Hor Hsog).
    assert (Hin : World.lookup (world s) (Body.id sword) = Some sword).
    { destruct Hor as [[= -> ->] | [= -> ->]].
      - now rewrite (WorldFacts.lookup_id _ _ _ HA).
      - now rewrite (WorldFacts.lookup_id _ _ _ HB). }
    destruct Hsog as (Hl & Hst & Hgl & Hgs).
    assert (E : s' = if isVertical (Body.angle sword)
                     then set_world (World.store (world s) (pin sword)) s
                     else s).
    { unfold s'. rewrite (collisionPair_found s pair bodyA bodyB HA HB), Hid.
      rewrite Hst, Hgl. reflexivity. }
    split.
    + intros Hv. rewrite Hv in E. rewrite E.
      cbn [world set_world].
      split; [reflexivity |].
      split; [apply WorldFacts.store_ids |].
      split.
      { intros i Hi. now apply WorldFacts.lookup_store_other. }
      exists (pin sword).
      split; [apply (WorldFacts.lookup_store_same _ (pin sword) sword Hin) |].
      repeat split.
    + intros Hv. now rewrite Hv in E.
  - intros HlA HlB. unfold s'.
    apply (collisionPair_ignores s pair bodyA bodyB HA HB Hg).
    + intros (_ & _ & Hgl & _). rewrite HlB in Hgl. discriminate.
    + intros (_ & _ & Hgl & _). rewrite HlA in Hgl. discriminate.
  - intros H1 H2. apply (collisionPair_ignores s pair bodyA bodyB HA HB Hg H1 H2).
Qed.

Lemma collisionPair_pins_only_sword_on_ground_witness :
  exists pinned : Body.t,
    World.lookup (world (collisionPair Sample.playing (1%nat, 0%nat))) 1
    = Some pinned /\
    Body.isStatic pinned = true /\
    Body.velocity pinned = Vector.mk 0 0 /\
    Body.angularVelocity pinned = 0.
Proof.
  assert (Hg : grounds_static (world Sample.playing)).
  { repeat constructor. intros H; discriminate H. }
  assert (Hs : sword_on_ground Sample.fallen Sample.terrain).
  { repeat split. }
  assert (Hv : isVertical (Body.angle Sample.fallen) = true).
  { apply isVertical_upright. cbn [Body.angle Sample.fallen]. lra. }
  destruct (collisionPair_pins_only_sword_on_ground Sample.playing
              (1%nat, 0%nat) Sample.fallen Sample.terrain
              eq_refl eq_refl Hg) as [H _].
  destruct (H Sample.fallen Sample.terrain (or_introl eq_refl) Hs) as [Hpin _].
  destruct (Hpin Hv) as (_ & _ & _ & pinned & Hl & H1 & H2 & H3 & _).
  exists pinned. auto.
Defined.

(** ** Spawning *)

(** What an accepted press does. *)
Lemma mousedown_accepts (clientX : R) (now : Z) (random : R) (s : State) :
  isPlaying s = true ->
  (CONFIG.SWORD.COOLDOWN <= now - lastSpawnTime s)%Z ->
  mousedown clientX now random s
  = set_lastSpawnTime now (spawnSword clientX random s).
Proof.
  intros Hp Hc. unfold mousedown. rewrite Hp. cbn [negb].
  apply Z.ltb_ge in Hc. now rewrite Hc.
Qed.

(** What a rejected press does. *)
Lemma mousedown_rejects (clientX : R) (now : Z) (random : R) (s : State) :
  isPlaying s = false \/ (now - lastSpawnTime s < CONFIG.SWORD.COOLDOWN)%Z ->
  mousedown clientX now random s = s.
Proof.
  intros H. unfold mousedown.
  destruct (isPlaying s); cbn [negb]; [| reflexivity].
  destruct H as [H | H]; [discriminate |].
  apply Z.ltb_lt in H. now rewrite H.
Qed.

(** C6.  A press while the session is not playing, or less than 500 ms
    after the last accepted one, changes nothing.  Any other press adds
    exactly one body to the world, a non-static sword at the press's
    horizontal position and the spawn height of -500, sets
    [lastSpawnTime] to the time of the press and adds one to the sword
    counter.  So a second press less than 500 ms after an accepted one
    changes nothing. *)
Theorem mousedown_throttled
    (clientX : R) (now : Z) (random : R) (s : State) :
  (isPlaying s = false \/ (now - lastSpawnTime s < 500)%Z ->
   mousedown clientX now random s = s) /\
  (isPlaying s = true -> (500 <= now - lastSpawnTime s)%Z ->
   let s' := mousedown clientX now random s in
   (exists sword : Body.t,
      world s' = world s ++ [sword] /\
      Body.label sword = "sword"%string /\
      Body.isStatic sword = false /\
      Body.position sword = Vector.mk clientX (-500) /\
      Body.angle sword = 0) /\
   lastSpawnTime s' = now /\
   swordsOnScreen s' = (swordsOnScreen s + 1)%Z /\
   isPlaying s' = true /\ lives s' = lives s /\
   forall (clientX2 : R) (now2 : Z) (random2 : R),
     (now2 - now < 500)%Z ->
     mousedown clientX2 now2 random2 s' = s').
Proof.
  split.
  - apply mousedown_rejects.
  - intros Hp Hc s'.
    assert (E : s' = set_lastSpawnTime now (spawnSword clientX random s)).
    { unfold s'. now apply mousedown_accepts. }
    rewrite E.
    split.
    { eexists. split; [reflexivity |]. repeat split. }
    split; [reflexivity |].
    split; [reflexivity |].
    split; [exact Hp |].
    split; [reflexivity |].
    intros clientX2 now2 random2 H2.
    apply mousedown_rejects. right. exact H2.
Qed.

(** Two presses at the same place 100 ms apart, the first one a second
    after the last spawn: only the first adds a body. *)
Lemma mousedown_throttled_witness :
  let s1 := mousedown 600 2000 0.5 Sample.playing in
  let s2 := mousedown 600 2100 0.5 s1 in
  List.length (world s1) = S (List.length (world Sample.playing)) /\
  swordsOnScreen s1 = 2%Z /\ lastSpawnTime s1 = 2000%Z /\ s2 = s1.
Proof.
  cbv zeta.
  destruct (mousedown_throttled 600 2000 0.5 Sample.playing) as [_ H].
  destruct (H eq_refl ltac:(cbn; lia)) as ((sword & Hw & _) & Ht & Hn & _ & _ & Hnext).
  split; [rewrite Hw, length_app; cbn; lia |].
  split; [exact Hn |].
  split; [exact Ht |].
  apply Hnext. lia.
Defined.

(** ** Restarting *)

(** The state [reset] leaves: the counters at their initial values and
    the freshly built terrain as the only body. *)
Lemma reset_eq (s : State) :
  exists vertices : list Vector.t,
    islandVertices (simplex s) (canvas_width s) (canvas_height s)
    = Some vertices /\
    reset s =
    mkState 3 (maxLives s) 0 true 0 (highScores s) (simplex s)
      (Some (nextId s))
      [Bodies.fromVertices (nextId s)
         (island_startX (canvas_width s) + island_width (canvas_width s) / 2)
         (island_surfaceY (canvas_height s) + CONFIG.ISLAND.DEPTH / 2)
         vertices true "ground"]
      (canvas_width s) (canvas_height s) (excalibur_scores s)
      (S (nextId s)).
Proof.
  destruct (islandVertices_total (simplex s) (canvas_width s) (canvas_height s))
    as [vertices Hv].
  exists vertices. split; [exact Hv |].
  unfold reset, createIsland. cbv zeta.
  cbn [simplex canvas_width canvas_height islandBody world nextId
       set_lives set_swordsOnScreen set_isPlaying set_lastSpawnTime set_world].
  rewrite Hv. unfold World.clear.
  replace (match islandBody s with
           | Some b => World.remove [] b
           | None => []
           end) with (@nil Body.t) by (destruct (islandBody s); reflexivity).
  reflexivity.
Qed.

(** C8.  [reset], called once or twice in a row, leaves a fresh session
    each time (three lives, no swords, play enabled, the spawn timer at
    zero, and the terrain as the one body of the world, with no other
    body left over), and the two states agree in everything but the
    identity of the terrain body. *)
Theorem reset_idempotent (s : State) :
  fresh_session (reset s) /\
  fresh_session (reset (reset s)) /\
  equivalent (reset s) (reset (reset s)).
Proof.
  destruct (reset_eq s) as (v1 & Hv1 & E1).
  destruct (reset_eq (reset s)) as (v2 & Hv2 & E2).
  rewrite E1 in Hv2.
  cbn [simplex canvas_width canvas_height] in Hv2.
  assert (v2 = v1) by congruence. subst v2.
  rewrite E2. rewrite E1.
  cbn [maxLives highScores simplex canvas_width canvas_height
       excalibur_scores nextId].
  split; [| split].
  - unfold fresh_session. cbn.
    repeat split. eexists. repeat split.
  - unfold fresh_session. cbn.
    repeat split. eexists. repeat split.
  - unfold equivalent. cbn [lives maxLives swordsOnScreen isPlaying
      lastSpawnTime highScores canvas_width canvas_height excalibur_scores world].
    repeat split.
    constructor; [| constructor].
    unfold same_body. repeat split.
Qed.

(** ** What the listeners leave alone *)

Lemma session_frame_refl (s : State) : session_frame s s.
Proof. unfold session_frame. repeat split. Qed.

Lemma session_frame_trans (s1 s2 s3 : State) :
  session_frame s1 s2 -> session_frame s2 s3 -> session_frame s1 s3.
Proof.
  unfold session_frame.
  intros (A1 & A2 & A3 & A4 & A5 & A6 & A7) (B1 & B2 & B3 & B4 & B5 & B6 & B7).
  repeat split; congruence.
Qed.

(** Writing to a body of the world, keeping its label. *)
Lemma store_frame (s : State) (b c : Body.t) :
  World.lookup (world s) (Body.id b) = Some c ->
  Body.label b = Body.label c ->
  session_frame s (set_world (World.store (world s) b) s).
Proof.
  intros Hl Hlab. unfold session_frame. cbn [isPlaying lives swordsOnScreen
    lastSpawnTime highScores world set_world].
  repeat split.
  - apply WorldFacts.store_ids.
  - now apply (WorldFacts.store_labels _ b c).
Qed.

Lemma collisionPair_frame (s : State) (pair : nat * nat) :
  session_frame s (collisionPair s pair).
Proof.
  unfold collisionPair.
  destruct (World.lookup (world s) (fst pair)) as [bodyA |] eqn:HA;
    [| apply session_frame_refl].
  destruct (World.lookup (world s) (snd pair)) as [bodyB |] eqn:HB;
    [| apply session_frame_refl].
  assert (IA := WorldFacts.lookup_id _ _ _ HA).
  assert (IB := WorldFacts.lookup_id _ _ _ HB).
  unfold identify.
  destruct (String.eqb (Body.label bodyA) "sword").
  - destruct (negb (Body.isStatic bodyA)
              && String.eqb (Body.label bodyB) "ground");
      [| apply session_frame_refl].
    destruct (isVertical (Body.angle bodyA)); [| apply session_frame_refl].
    apply (store_frame s (pin bodyA) bodyA); [| reflexivity].
    cbn [pin Body.id Body.setStatic Body.setVelocity Body.setAngularVelocity].
    now rewrite IA.
  - destruct (String.eqb (Body.label bodyB) "sword");
      [| apply session_frame_refl].
    destruct (negb (Body.isStatic bodyB)
              && String.eqb (Body.label bodyA) "ground");
      [| apply session_frame_refl].
    destruct (isVertical (Body.angle bodyB)); [| apply session_frame_refl].
    apply (store_frame s (pin bodyB) bodyB); [| reflexivity].
    cbn [pin Body.id Body.setStatic Body.setVelocity Body.setAngularVelocity].
    now rewrite IB.
Qed.

Lemma collisionStart_frame (pairs : list (nat * nat)) (s : State) :
  session_frame s (collisionStart pairs s).
Proof.
  unfold collisionStart. revert s.
  induction pairs as [| p pairs IH]; intros s; simpl.
  - apply session_frame_refl.
  - eapply session_frame_trans; [apply collisionPair_frame | apply IH].
Qed.

Lemma integrateOne_frame (s : State) (mv : nat * Motion) :
  session_frame s (integrateOne s mv).
Proof.
  unfold integrateOne.
  destruct (World.lookup (world s) (fst mv)) as [b |] eqn:Hb;
    [| apply session_frame_refl].
  destruct (Body.isStatic b); [apply session_frame_refl |].
  apply (store_frame s (move (snd mv) b) b); [| reflexivity].
  cbn [move Body.id]. now rewrite (WorldFacts.lookup_id _ _ _ Hb).
Qed.

Lemma integrate_frame (moves : list (nat * Motion)) (s : State) :
  session_frame s (integrate moves s).
Proof.
  unfold integrate. revert s.
  induction moves as [| m moves IH]; intros s; simpl.
  - apply session_frame_refl.
  - eapply session_frame_trans; [apply integrateOne_frame | apply IH].
Qed.

(** Once the session is over, the listener returns at its first line. *)
Lemma beforeUpdate_over (s : State) :
  isPlaying s = false -> beforeUpdate s = s.
Proof. intros H. unfold beforeUpdate. now rewrite H. Qed.

(** While the session is over, no event but a restart adds or removes a
    body or touches the counters. *)
Lemma step_frame_over (s : State) (e : Event) :
  isPlaying s = false -> e <> Restart -> session_frame s (step s e).
Proof.
  intros Hp He. destruct e as [x now rnd | moves pairs | w h |]; simpl.
  - rewrite mousedown_rejects by (now left). apply session_frame_refl.
  - rewrite (beforeUpdate_over s Hp).
    eapply session_frame_trans; [apply integrate_frame | apply collisionStart_frame].
  - unfold session_frame. repeat split.
  - contradiction.
Qed.

Lemma run_frame_over (events : list Event) :
  forall s : State,
    isPlaying s = false ->
    Forall (fun e => e <> Restart) events ->
    session_frame s (run events s).
Proof.
  unfold run.
  induction events as [| e events IH]; intros s Hp Hev; simpl.
  - apply session_frame_refl.
  - inversion Hev as [| ? ? He Hev']; subst.
    assert (F := step_frame_over s e Hp He).
    eapply session_frame_trans; [exact F |].
    apply IH; [| exact Hev'].
    destruct F as (F1 & _). now rewrite F1.
Qed.

(** C10.  While [isPlaying] is false the [beforeUpdate] listener changes
    nothing at all, whatever bodies lie below the boundary: the state it
    returns is the state it was given.  Until a restart, no event adds or
    removes a body or changes the lives or the sword counter; the restart
    leaves no sword in the world. *)
Theorem beforeUpdate_idle_when_over (s : State) :
  isPlaying s = false ->
  beforeUpdate s = s /\
  (forall events : list Event,
     Forall (fun e => e <> Restart) events ->
     let s' := run events s in
     isPlaying s' = false /\ lives s' = lives s /\
     swordsOnScreen s' = swordsOnScreen s /\
     map Body.id (world s') = map Body.id (world s) /\
     map Body.label (world s') = map Body.label (world s)) /\
  Forall (fun b => Body.label b <> "sword"%string) (world (reset s)).
Proof.
  intros Hp.
  split; [now apply beforeUpdate_over |].
  split.
  - intros events Hev s'.
    destruct (run_frame_over events s Hp Hev) as (F1 & F2 & F3 & _ & _ & F6 & F7).
    fold s' in F1, F2, F3, F6, F7.
    repeat split; congruence.
  - destruct (reset_eq s) as (v & _ & E). rewrite E. cbn [world].
    constructor; [| constructor].
    cbn. discriminate.
Qed.

(** A session that is over, with a sword 700 below the canvas: a tick
    changes nothing, the sword stays through a press, a resize and a
    second tick, and is gone after the restart. *)
Lemma beforeUpdate_idle_when_over_witness :
  beforeUpdate Sample.over = Sample.over /\
  inVoid (canvas_height Sample.over) (Sample.sunk 1) = true /\
  map Body.id
    (world (run [MouseDown 600 5000 0.5; Tick [] []; Resize 800 600; Tick [] []]
                Sample.over))
  = [0; 1]%nat /\
  Forall (fun b => Body.label b <> "sword"%string) (world (reset Sample.over)).
Proof.
  destruct (beforeUpdate_idle_when_over Sample.over eq_refl) as (H1 & H2 & H3).
  split; [exact H1 |].
  split.
  { unfold inVoid. cbn [Body.label Sample.sunk String.eqb Ascii.eqb Bool.eqb andb
      Body.position Vector.y canvas_height Sample.over].
    apply JSFacts.gtb_true. lra. }
  split; [| exact H3].
  assert (Hev : Forall (fun e => e <> Restart)
            [MouseDown 600 5000 0.5; Tick [] []; Resize 800 600; Tick [] []]).
  { repeat constructor; discriminate. }
  destruct (H2 _ Hev) as (_ & _ & _ & Hids & _).
  exact Hids.
Defined.

(** ** The terrain stays static *)

Section GroundsStatic.

Let ok (b : Body.t) : Prop :=
  Body.label b = "ground"%string -> Body.isStatic b = true.

Lemma store_grounds (w : World.t) (b : Body.t) :
  Forall ok w -> ok b -> Forall ok (World.store w b).
Proof.
  intros Hw Hb.
  induction w as [| c w IH]; simpl; [constructor |].
  inversion Hw; subst.
  destruct (Nat.eqb (Body.id c) (Body.id b)); constructor; auto.
Qed.

Lemma remove_grounds (w : World.t) (i : nat) :
  Forall ok w -> Forall ok (World.remove w i).
Proof.
  intros Hw.
  induction w as [| c w IH]; simpl; [constructor |].
  inversion Hw; subst.
  destruct (Nat.eqb (Body.id c) i); [assumption | constructor; auto].
Qed.

Lemma collisionPair_grounds (s : State) (pair : nat * nat) :
  grounds_static (world s) -> grounds_static (world (collisionPair s pair)).
Proof.
  unfold grounds_static. fold ok. intros Hw. unfold collisionPair.
  destruct (World.lookup (world s) (fst pair)) as [bodyA |]; [| assumption].
  destruct (World.lookup (world s) (snd pair)) as [bodyB |]; [| assumption].
  destruct (identify bodyA bodyB) as [[sword other] |]; [| assumption].
  destruct (negb (Body.isStatic sword)
            && String.eqb (Body.label other) "ground"); [| assumption].
  destruct (isVertical (Body.angle sword)); [| assumption].
  cbn [world set_world]. apply store_grounds; [assumption |].
  intros _. reflexivity.
Qed.

Lemma integrateOne_grounds (s : State) (mv : nat * Motion) :
  grounds_static (world s) -> grounds_static (world (integrateOne s mv)).
Proof.
  unfold grounds_static. fold ok. intros Hw. unfold integrateOne.
  destruct (World.lookup (world s) (fst mv)) as [b |] eqn:Hb; [| assumption].
  destruct (Body.isStatic b) eqn:Hs; [assumption |].
  cbn [world set_world]. apply store_grounds; [assumption |].
  rewrite Forall_forall in Hw.
  assert (Hok := Hw b (WorldFacts.lookup_In _ _ _ Hb)).
  unfold ok in *. cbn [move Body.label Body.isStatic].
  intros Hl. rewrite (Hok Hl) in Hs. discriminate.
Qed.

Lemma voidCheck_grounds (s : State) (b : Body.t) :
  grounds_static (world s) -> grounds_static (world (voidCheck s b)).
Proof.
  unfold grounds_static. fold ok. intros Hw. unfold voidCheck.
  destruct (inVoid (canvas_height s) b); [| assumption].
  unfold triggerLifeLoss. cbv zeta.
  match goal with |- context [if ?c then _ else _] => destruct c end;
    cbn; now apply remove_grounds.
Qed.

Lemma fold_grounds {B : Type} (f : State -> B -> State) (l : list B) :
  (forall s b, grounds_static (world s) -> grounds_static (world (f s b))) ->
  forall s, grounds_static (world s) -> grounds_static (world (fold_left f l s)).
Proof.
  intros Hf. induction l as [| b l IH]; intros s Hs; simpl; auto.
Qed.

Lemma reset_grounds (s : State) : grounds_static (world (reset s)).
Proof.
  destruct (reset_eq s) as (v & _ & E). rewrite E.
  unfold grounds_static. cbn [world]. repeat constructor.
Qed.

Lemma step_grounds (s : State) (e : Event) :
  grounds_static (world s) -> grounds_static (world (step s e)).
Proof.
  intros Hs. destruct e as [x now rnd | moves pairs | w h |]; cbn [step].
  - unfold mousedown.
    destruct (negb (isPlaying s)); [assumption |].
    destruct (now - lastSpawnTime s <? CONFIG.SWORD.COOLDOWN)%Z; [assumption |].
    unfold grounds_static in *. cbn. apply Forall_app. split; [assumption |].
    constructor; [| constructor]. cbn. discriminate.
  - unfold collisionStart, integrate, beforeUpdate.
    apply (fold_grounds _ _ collisionPair_grounds).
    apply (fold_grounds _ _ integrateOne_grounds).
    destruct (negb (isPlaying s)); [assumption |].
    now apply (fold_grounds _ _ voidCheck_grounds).
  - exact Hs.
  - apply reset_grounds.
Qed.

End GroundsStatic.

(** ** Running the session on given events *)

Lemma init_eq (noise2D : R -> R -> R) (w h : Z) (stored : option (list Z)) :
  exists vertices : list Vector.t,
    islandVertices noise2D w h = Some vertices /\
    init noise2D w h stored =
    mkState 3 3 0 true 0
      (match stored with Some l => l | None => [0; 0; 0]%Z end)
      noise2D (Some 0%nat)
      [Bodies.fromVertices 0
         (island_startX w + island_width w / 2)
         (island_surfaceY h + CONFIG.ISLAND.DEPTH / 2)
         vertices true "ground"]
      w h stored 1.
Proof.
  destruct (islandVertices_total noise2D w h) as [vertices Hv].
  exists vertices. split; [exact Hv |].
  unfold init, createIsland. cbv zeta.
  cbn [simplex canvas_width canvas_height islandBody world nextId].
  rewrite Hv. reflexivity.
Qed.

Lemma run_cons (e : Event) (es : list Event) (s : State) :
  run (e :: es) s = run es (step s e).
Proof. reflexivity. Qed.

Lemma run_nil (s : State) : run [] s = s.
Proof. reflexivity. Qed.

Lemma run_reachable (s0 : State) (es : list Event) :
  forall s : State, reachable s0 s -> reachable s0 (run es s).
Proof.
  induction es as [| e es IH]; intros s Hs.
  - exact Hs.
  - rewrite run_cons. apply IH. now constructor.
Qed.

Lemma fold_left_cons {A B : Type} (f : A -> B -> A) (b : B) (l : list B) (a : A) :
  fold_left f (b :: l) a = fold_left f l (f a b).
Proof. reflexivity. Qed.

Lemma fold_left_nil {A B : Type} (f : A -> B -> A) (a : A) :
  fold_left f [] a = a.
Proof. reflexivity. Qed.

Lemma voidCheck_stays (s : State) (b : Body.t) :
  inVoid (canvas_height s) b = false -> voidCheck s b = s.
Proof. intros H. unfold voidCheck. now rewrite H. Qed.

Lemma voidCheck_falls (s : State) (b : Body.t) :
  inVoid (canvas_height s) b = true ->
  voidCheck s b
  = triggerLifeLoss
      (set_swordsOnScreen (swordsOnScreen s - 1)
         (set_world (World.remove (world s) (Body.id b)) s)).
Proof. intros H. unfold voidCheck. now rewrite H. Qed.

Lemma triggerLifeLoss_alive (s : State) :
  (0 < lives s - 1)%Z -> triggerLifeLoss s = set_lives (lives s - 1) s.
Proof.
  intros H. unfold triggerLifeLoss. cbv zeta. cbn [lives set_lives].
  apply Z.leb_gt in H. now rewrite H.
Qed.

Lemma triggerLifeLoss_over (s : State) :
  (lives s - 1 <= 0)%Z ->
  triggerLifeLoss s = triggerGameOver (set_lives (lives s - 1) s).
Proof.
  intros H. unfold triggerLifeLoss. cbv zeta. cbn [lives set_lives].
  apply Z.leb_le in H. now rewrite H.
Qed.

(** Evaluation of a state expression, leaving the handlers and the
    comparisons of reals in place. *)
Ltac norm :=
  cbv -[IZR Q2R INR JS.gtb JS.ltb JS.leb JS.geb isVertical Rplus Rminus Rmult
        Rdiv Ropp Rinv Rlt Rle Rgt Rge run step beforeUpdate voidCheck
        triggerLifeLoss triggerGameOver mousedown collisionStart collisionPair
        integrate integrateOne fold_left].

Ltac decide_inVoid :=
  unfold inVoid; norm;
  first [ reflexivity
        | apply JSFacts.gtb_true; lra
        | apply JSFacts.gtb_false; lra ].

(** The [forEach] of [beforeUpdate], one body at a time. *)
Ltac run_voidChecks :=
  repeat (rewrite fold_left_cons;
          first [ rewrite voidCheck_stays by decide_inVoid
                | rewrite voidCheck_falls by decide_inVoid;
                  first [ rewrite triggerLifeLoss_alive
                            by (norm; first [lia | easy])
                        | rewrite triggerLifeLoss_over
                            by (norm; first [lia | easy]);
                          unfold triggerGameOver ] ];
          norm);
  rewrite ?fold_left_nil.

Ltac run_integrate :=
  unfold integrate;
  repeat (rewrite fold_left_cons; unfold integrateOne; norm);
  rewrite ?fold_left_nil.

Ltac run_collisions :=
  unfold collisionStart;
  repeat (rewrite fold_left_cons; unfold collisionPair; norm;
          try (rewrite isVertical_upright by lra));
  rewrite ?fold_left_nil.

(** One event of a run from a state in evaluated form. *)
Ltac run_event :=
  rewrite run_cons;
  lazymatch goal with
  | |- context [step _ (MouseDown _ _ _)] =>
      cbn [step];
      rewrite mousedown_accepts by (norm; first [reflexivity | lia | easy]);
      norm
  | |- context [step _ (Tick _ _)] =>
      cbn [step]; unfold beforeUpdate at 1; norm;
      run_voidChecks; run_integrate; run_collisions
  | |- context [step _ (Resize _ _)] =>
      cbn [step]; norm
  end.

(** C2 fails on the code.  Four swords dropped past the island of a
    1200 by 800 canvas, the last two crossing the boundary in the same
    step while one life is left: the listener tests [isPlaying] only
    before its loop, so at the next step both swords cost a life and
    [lives] ends at -1. *)
Theorem lives_below_zero :
  let s0 := init (fun _ _ => 0) 1200 800 None in
  let s1 := run Sample.four_misses s0 in
  let s2 := step s1 (Tick [] []) in
  reachable s0 s2 /\
  lives s1 = 1%Z /\ isPlaying s1 = true /\
  lives s2 = (-1)%Z /\ isPlaying s2 = false.
Proof.
  cbv zeta.
  split; [constructor; apply run_reachable; constructor |].
  destruct (init_eq (fun _ _ => 0) 1200 800 None) as (vs & _ & E).
  rewrite E. clear E. unfold Sample.four_misses.
  match goal with
  | |- lives (run ?es ?s) = _ /\ _ =>
      assert (H : exists s1, run es s = s1 /\
                             lives s1 = 1%Z /\ isPlaying s1 = true /\
                             exists s2, run [Tick [] []] s1 = s2 /\
                               lives s2 = (-1)%Z /\ isPlaying s2 = false)
  end.
  { eexists. split; [do 7 run_event; apply run_nil |].
    split; [reflexivity |]. split; [reflexivity |].
    eexists. split; [run_event; apply run_nil |].
    split; reflexivity. }
  destruct H as (s1 & -> & H1 & H2 & s2 & E2 & H3 & H4).
  rewrite run_cons, run_nil in E2. rewrite E2. auto.
Qed.

(** C4 fails on the code.  On a 1600 by 1300 canvas a sword lands upright
    on the island at height 990 and is pinned; the window is then made
    800 shorter, which moves the boundary to 900.  At the next step the
    listener finds a body labelled sword below the boundary and, not
    looking at [isStatic], removes the pinned sword and takes a life. *)
Theorem pinned_sword_removed :
  let s0 := init (fun _ _ => 0) 1600 1300 None in
  let s1 := run Sample.pin_then_shrink s0 in
  let s2 := step s1 (Tick [] []) in
  reachable s0 s2 /\
  (exists pinned : Body.t,
     World.lookup (world s1) 1 = Some pinned /\
     Body.label pinned = "sword"%string /\ Body.isStatic pinned = true) /\
  lives s1 = 3%Z /\ swordsOnScreen s1 = 1%Z /\
  World.lookup (world s2) 1 = None /\
  lives s2 = 2%Z /\ swordsOnScreen s2 = 0%Z.
Proof.
  cbv zeta.
  split; [constructor; apply run_reachable; constructor |].
  destruct (init_eq (fun _ _ => 0) 1600 1300 None) as (vs & _ & E).
  rewrite E. clear E. unfold Sample.pin_then_shrink.
  match goal with
  | |- (exists _, World.lookup (world (run ?es ?s)) _ = _ /\ _) /\ _ =>
      assert (H : exists s1, run es s = s1 /\
                  (exists pinned : Body.t,
                     World.lookup (world s1) 1 = Some pinned /\
                     Body.label pinned = "sword"%string /\
                     Body.isStatic pinned = true) /\
                  lives s1 = 3%Z /\ swordsOnScreen s1 = 1%Z /\
                  exists s2, run [Tick [] []] s1 = s2 /\
                    World.lookup (world s2) 1 = None /\
                    lives s2 = 2%Z /\ swordsOnScreen s2 = 0%Z)
  end.
  { eexists. split; [do 3 run_event; apply run_nil |].
    split; [eexists; split; [reflexivity | split; reflexivity] |].
    split; [reflexivity |]. split; [reflexivity |].
    eexists. split; [run_event; apply run_nil |].
    repeat split. }
  destruct H as (s1 & -> & Hp & H1 & H2 & s2 & E2 & H3 & H4 & H5).
  rewrite run_cons, run_nil in E2. rewrite E2.
  split; [exact Hp |]. repeat split; assumption.
Qed.

(** In every state the session can reach, every body labelled ground is
    static: the collision listener only ever meets a static terrain. *)
Lemma reachable_grounds_static
    (noise2D : R -> R -> R) (w h : Z) (stored : option (list Z)) (s : State) :
  reachable (init noise2D w h stored) s -> grounds_static (world s).
Proof.
  induction 1 as [| s e _ IH].
  - destruct (init_eq noise2D w h stored) as (v & _ & E). rewrite E.
    unfold grounds_static. cbn [world]. repeat constructor.
  - now apply step_grounds.
Qed.

(** * Further properties of the code *)

(** ** The hearts line *)

Lemma string_app_assoc (a b c : string) :
  ((a ++ b) ++ c)%string = (a ++ (b ++ c))%string.
Proof. induction a as [| ch a IH]; simpl; [reflexivity | now rewrite IH]. Qed.

Lemma string_app_nil_r (a : string) : (a ++ "")%string = a.
Proof. induction a as [| ch a IH]; simpl; [reflexivity | now rewrite IH]. Qed.

(** The loop entered at [i] with [n] hearts left to write: it writes a
    full glyph for each index below [lives], an empty one for the rest. *)
Lemma heartsLoop_run (full empty : string) (maxLives lives : Z) (n : nat) :
  forall (fuel : nat) (i : Z) (acc : string),
    (n < fuel)%nat ->
    (0 <= i)%Z ->
    (i + Z.of_nat n = Z.max 0 maxLives)%Z ->
    heartsLoop full empty maxLives lives fuel i acc
    = Some (acc ++ glyphs full (Z.to_nat (Z.min lives (i + Z.of_nat n) - i))
                ++ glyphs empty (n - Z.to_nat (Z.min lives (i + Z.of_nat n) - i)))%string.
Proof.
  induction n as [| n IH]; intros fuel i acc Hfuel Hi Hend;
    (destruct fuel as [| fuel]; [lia |]); simpl heartsLoop.
  - assert (E : (i <? maxLives)%Z = false) by (apply Z.ltb_ge; lia).
    rewrite E.
    replace (Z.to_nat (Z.min lives (i + Z.of_nat 0) - i)) with 0%nat by lia.
    simpl. now rewrite string_app_nil_r.
  - assert (E : (i <? maxLives)%Z = true) by (apply Z.ltb_lt; lia).
    rewrite E.
    rewrite (IH fuel (i + 1)%Z) by lia.
    f_equal. rewrite string_app_assoc. f_equal.
    replace (i + 1 + Z.of_nat n)%Z with (i + Z.of_nat (S n))%Z by lia.
    destruct (i <? lives)%Z eqn:El.
    + apply Z.ltb_lt in El.
      replace (Z.to_nat (Z.min lives (i + Z.of_nat (S n)) - i))
        with (S (Z.to_nat (Z.min lives (i + Z.of_nat (S n)) - (i + 1)))) by lia.
      simpl. rewrite string_app_assoc. reflexivity.
    + apply Z.ltb_ge in El.
      replace (Z.to_nat (Z.min lives (i + Z.of_nat (S n)) - i)) with 0%nat by lia.
      replace (Z.to_nat (Z.min lives (i + Z.of_nat (S n)) - (i + 1)))
        with 0%nat by lia.
      simpl. rewrite Nat.sub_0_r. reflexivity.
Qed.

(** X1.  The hearts line always holds [maxLives] glyphs: as many full
    ones as there are lives left, at most [maxLives] and none when
    [lives] is zero or negative, followed by empty ones. *)
Theorem heartsHTML_clamps (full empty : string) (s : State) :
  let shown := Z.to_nat (Z.min (lives s) (maxLives s)) in
  heartsHTML full empty s
  = Some (glyphs full shown
          ++ glyphs empty (Z.to_nat (maxLives s) - shown))%string.
Proof.
  cbv zeta. unfold heartsHTML.
  rewrite (heartsLoop_run full empty (maxLives s) (lives s)
             (Z.to_nat (maxLives s))) by lia.
  replace (Z.to_nat (Z.min (lives s) (0 + Z.of_nat (Z.to_nat (maxLives s))) - 0))
    with (Z.to_nat (Z.min (lives s) (maxLives s))) by lia.
  reflexivity.
Qed.

(** ** What the boundary check does in one step *)

Lemma triggerLifeLoss_fields (s : State) :
  lives (triggerLifeLoss s) = (lives s - 1)%Z /\
  isPlaying (triggerLifeLoss s)
  = (if (lives s - 1 <=? 0)%Z then false else isPlaying s) /\
  swordsOnScreen (triggerLifeLoss s) = swordsOnScreen s /\
  world (triggerLifeLoss s) = world s /\
  canvas_height (triggerLifeLoss s) = canvas_height s /\
  maxLives (triggerLifeLoss s) = maxLives s /\
  nextId (triggerLifeLoss s) = nextId s /\
  islandBody (triggerLifeLoss s) = islandBody s /\
  lastSpawnTime (triggerLifeLoss s) = lastSpawnTime s.
Proof.
  unfold triggerLifeLoss. cbv zeta. cbn [lives set_lives].
  destruct (lives s - 1 <=? 0)%Z; repeat split.
Qed.

Lemma voidCheck_fields (s : State) (b : Body.t) :
  let hit := inVoid (canvas_height s) b in
  lives (voidCheck s b) = (if hit then lives s - 1 else lives s)%Z /\
  isPlaying (voidCheck s b)
  = (if hit && (lives s - 1 <=? 0)%Z then false else isPlaying s) /\
  swordsOnScreen (voidCheck s b)
  = (if hit then swordsOnScreen s - 1 else swordsOnScreen s)%Z /\
  world (voidCheck s b)
  = (if hit then World.remove (world s) (Body.id b) else world s) /\
  canvas_height (voidCheck s b) = canvas_height s /\
  maxLives (voidCheck s b) = maxLives s /\
  nextId (voidCheck s b) = nextId s /\
  islandBody (voidCheck s b) = islandBody s /\
  lastSpawnTime (voidCheck s b) = lastSpawnTime s.
Proof.
  cbv zeta. unfold voidCheck.
  destruct (inVoid (canvas_height s) b); [| repeat split].
  cbv zeta.
  match goal with
  | |- context [triggerLifeLoss ?t] =>
      destruct (triggerLifeLoss_fields t) as (A & B & C & D & E & F & G & H & I)
  end.
  rewrite A, B, C, D, E, F, G, H, I. cbn. repeat split.
Qed.

(** The loop over any list of bodies: each body below the boundary costs
    one life and one unit of the counter, with no floor; play stops as
    soon as the lives are used up. *)
Lemma voidChecks_account (l : list Body.t) :
  forall s : State,
    let s' := fold_left voidCheck l s in
    let n := Z.of_nat (voidCount (canvas_height s) l) in
    lives s' = (lives s - n)%Z /\
    swordsOnScreen s' = (swordsOnScreen s - n)%Z /\
    canvas_height s' = canvas_height s /\
    maxLives s' = maxLives s /\ nextId s' = nextId s /\
    islandBody s' = islandBody s /\ lastSpawnTime s' = lastSpawnTime s /\
    (isPlaying s' = false <->
     isPlaying s = false \/ (0 < n /\ lives s - n <= 0)%Z).
Proof.
  induction l as [| b l IH]; intros s; cbv zeta.
  - cbn. repeat split; try lia; intros; intuition lia.
  - rewrite fold_left_cons.
    destruct (voidCheck_fields s b) as (A & B & C & _ & E & F & G & H & I).
    cbv zeta in A, B, C.
    specialize (IH (voidCheck s b)). cbv zeta in IH.
    destruct IH as (A' & C' & E' & F' & G' & H' & I' & P').
    rewrite A', C', E', F', G', H', I', P'.
    rewrite A, B, C, E, F, G, H, I.
    unfold voidCount. cbn [filter].
    destruct (inVoid (canvas_height s) b); cbn [andb List.length].
    + fold (voidCount (canvas_height s) l).
      destruct (lives s - 1 <=? 0)%Z eqn:El;
        [apply Z.leb_le in El | apply Z.leb_gt in El];
        repeat split; try lia; intuition (try lia; try discriminate).
    + fold (voidCount (canvas_height s) l).
      repeat split; try lia; intuition lia.
Qed.

Lemma voidChecks_none (l : list Body.t) :
  forall s : State,
    voidCount (canvas_height s) l = 0%nat -> fold_left voidCheck l s = s.
Proof.
  induction l as [| b l IH]; intros s Hn; [reflexivity |].
  rewrite fold_left_cons.
  unfold voidCount in Hn. cbn [filter] in Hn.
  destruct (inVoid (canvas_height s) b) eqn:Hb; [discriminate |].
  rewrite voidCheck_stays by exact Hb. now apply IH.
Qed.

(** X2.  In play, one run of the listener takes one life and one unit
    of the sword counter for every body labelled sword below the
    boundary, however many there are; it leaves the state as it is when
    there is none; and it ends play exactly when at least one sword fell
    and no life is left. *)
Theorem beforeUpdate_accounting (s : State) :
  isPlaying s = true ->
  let n := Z.of_nat (voidCount (canvas_height s) (world s)) in
  lives (beforeUpdate s) = (lives s - n)%Z /\
  swordsOnScreen (beforeUpdate s) = (swordsOnScreen s - n)%Z /\
  (n = 0%Z -> beforeUpdate s = s) /\
  (isPlaying (beforeUpdate s) = false <-> (0 < n /\ lives s - n <= 0)%Z).
Proof.
  intros Hp n. unfold beforeUpdate. rewrite Hp. cbn [negb]. cbv zeta.
  destruct (voidChecks_account (world s) s) as (A & C & _ & _ & _ & _ & _ & P).
  cbv zeta in A, C, P. fold n in A, C, P.
  split; [exact A |]. split; [exact C |].
  split.
  - intros Hn. apply voidChecks_none. unfold n in Hn. lia.
  - rewrite P, Hp. intuition discriminate.
Qed.

(** With one life left and two swords below the boundary, both are
    charged: the session ends with [lives] at -1. *)
Lemma beforeUpdate_accounting_witness :
  let s := set_lives 1
             (set_world [Sample.terrain; Sample.sunk 1; Sample.sunk 2]
                Sample.playing) in
  voidCount (canvas_height s) (world s) = 2%nat /\
  lives (beforeUpdate s) = (-1)%Z /\
  isPlaying (beforeUpdate s) = false.
Proof.
  cbv zeta.
  assert (Hn : voidCount 800 [Sample.terrain; Sample.sunk 1; Sample.sunk 2]
               = 2%nat).
  { unfold voidCount. cbn [filter].
    assert (H0 : inVoid 800 Sample.terrain = false) by reflexivity.
    assert (H1 : forall i, inVoid 800 (Sample.sunk i) = true).
    { intros i. unfold inVoid.
      cbn [Body.label Sample.sunk String.eqb Ascii.eqb Bool.eqb andb
           Body.position Vector.y].
      apply JSFacts.gtb_true. lra. }
    rewrite H0, !H1. reflexivity. }
  split; [exact Hn |].
  destruct (beforeUpdate_accounting
              (set_lives 1
                 (set_world [Sample.terrain; Sample.sunk 1; Sample.sunk 2]
                    Sample.playing)) eq_refl) as (A & _ & _ & P).
  cbn [canvas_height world lives set_lives set_world Sample.playing] in A, P.
  rewrite Hn in A, P.
  split; [exact A |].
  apply P. cbn. lia.
Defined.

(** ** Which bodies the boundary check removes *)

Lemma remove_skip (l1 l2 : World.t) (b : Body.t) :
  ~ In (Body.id b) (map Body.id l1) ->
  World.remove (l1 ++ b :: l2) (Body.id b) = l1 ++ l2.
Proof.
  induction l1 as [| c l1 IH]; intros Hn; simpl.
  - now rewrite Nat.eqb_refl.
  - simpl in Hn.
    assert (E : Nat.eqb (Body.id c) (Body.id b) = false)
      by (apply Nat.eqb_neq; tauto).
    rewrite E. f_equal. apply IH. tauto.
Qed.

(** The world along the loop depends on the bodies met, not on the
    counters. *)
Lemma voidChecks_world (l : list Body.t) :
  forall s : State,
    world (fold_left voidCheck l s)
    = fold_left
        (fun w b =>
           if inVoid (canvas_height s) b then World.remove w (Body.id b) else w)
        l (world s).
Proof.
  induction l as [| b l IH]; intros s; [reflexivity |].
  rewrite !fold_left_cons, IH.
  destruct (voidCheck_fields s b) as (_ & _ & _ & D & E & _).
  cbv zeta in D. now rewrite D, E.
Qed.

(** Sweeping the rest of a snapshot whose first part has been swept. *)
Lemma sweep_rest (h : Z) (rest : list Body.t) :
  forall done : list Body.t,
    NoDup (map Body.id (done ++ rest)) ->
    fold_left
      (fun w b => if inVoid h b then World.remove w (Body.id b) else w)
      rest (filter (fun b => negb (inVoid h b)) done ++ rest)
    = filter (fun b => negb (inVoid h b)) (done ++ rest).
Proof.
  induction rest as [| b rest IH]; intros done Hnd.
  - now rewrite !app_nil_r.
  - rewrite fold_left_cons.
    replace (done ++ b :: rest) with ((done ++ [b]) ++ rest) in *
      by (now rewrite <- app_assoc).
    rewrite <- (IH (done ++ [b]) Hnd). f_equal.
    rewrite filter_app. cbn [filter].
    destruct (inVoid h b) eqn:Hb; cbn [negb].
    + rewrite app_nil_r. apply remove_skip.
      rewrite <- app_assoc, map_app in Hnd. cbn [map app] in Hnd.
      apply NoDup_remove_2 in Hnd.
      intros Hin. apply Hnd. apply in_or_app. left.
      apply in_map_iff in Hin. destruct Hin as (c & Hc & Hin).
      apply in_map_iff. exists c. split; [exact Hc |].
      apply filter_In in Hin. tauto.
    + now rewrite <- app_assoc.
Qed.

Lemma beforeUpdate_world (s : State) :
  isPlaying s = true ->
  NoDup (map Body.id (world s)) ->
  world (beforeUpdate s)
  = filter (fun b => negb (inVoid (canvas_height s) b)) (world s).
Proof.
  intros Hp Hnd. unfold beforeUpdate. rewrite Hp. cbn [negb]. cbv zeta.
  rewrite voidChecks_world.
  apply (sweep_rest (canvas_height s) (world s) [] Hnd).
Qed.

(** X3.  In play, on a world whose bodies have distinct identities, the
    listener removes exactly the bodies labelled sword that lie below
    the boundary, static or not, and keeps every other body, in order:
    the terrain and every sword at or above the boundary stay. *)
Theorem beforeUpdate_removes_exactly (s : State) :
  isPlaying s = true ->
  NoDup (map Body.id (world s)) ->
  world (beforeUpdate s)
  = filter (fun b => negb (inVoid (canvas_height s) b)) (world s) /\
  (forall b : Body.t, In b (world s) ->
     (In b (world (beforeUpdate s)) <->
      ~ (Body.label b = "sword"%string /\
         Vector.y (Body.position b) > IZR (canvas_height s) + 400))).
Proof.
  intros Hp Hnd.
  assert (E := beforeUpdate_world s Hp Hnd).
  split; [exact E |].
  intros b Hb. rewrite E, filter_In.
  unfold inVoid.
  split.
  - intros [_ Hk] [Hl Hy].
    rewrite Hl in Hk. rewrite JSFacts.gtb_true in Hk by exact Hy.
    discriminate.
  - intros Hn. split; [exact Hb |].
    destruct (String.eqb (Body.label b) "sword") eqn:El; [| reflexivity].
    apply String.eqb_eq in El.
    destruct (JS.gtb (Vector.y (Body.position b))
                (IZR (canvas_height s) + 400)) eqn:Eg; [| reflexivity].
    apply JSFacts.gtb_spec in Eg. exfalso. apply Hn. now split.
Qed.

(** The terrain, a fallen sword above the boundary and one below it:
    only the last is removed. *)
Lemma beforeUpdate_removes_exactly_witness :
  world (beforeUpdate
           (set_world [Sample.terrain; Sample.fallen; Sample.sunk 2]
              Sample.playing))
  = [Sample.terrain; Sample.fallen].
Proof.
  destruct (beforeUpdate_removes_exactly
              (set_world [Sample.terrain; Sample.fallen; Sample.sunk 2]
                 Sample.playing) eq_refl) as [E _].
  { cbn. repeat constructor; cbn; intuition discriminate. }
  rewrite E. cbn [world set_world canvas_height Sample.playing filter].
  assert (H0 : inVoid 800 Sample.terrain = false) by reflexivity.
  assert (H1 : inVoid 800 Sample.fallen = false).
  { unfold inVoid.
    cbn [Body.label Sample.fallen String.eqb Ascii.eqb Bool.eqb andb
         Body.position Vector.y].
    apply JSFacts.gtb_false. lra. }
  assert (H2 : inVoid 800 (Sample.sunk 2) = true).
  { unfold inVoid.
    cbn [Body.label Sample.sunk String.eqb Ascii.eqb Bool.eqb andb
         Body.position Vector.y].
    apply JSFacts.gtb_true. lra. }
  rewrite H0, H1, H2. reflexivity.
Defined.

(** ** Lives and play status along a session *)

(** The physics side of a tick writes to the world alone. *)
Lemma collisionPair_only_world (s : State) (pair : nat * nat) :
  collisionPair s pair = set_world (world (collisionPair s pair)) s.
Proof.
  unfold collisionPair.
  destruct (World.lookup (world s) (fst pair)); [| now destruct s].
  destruct (World.lookup (world s) (snd pair)); [| now destruct s].
  destruct (identify _ _) as [[sword other] |]; [| now destruct s].
  destruct (negb (Body.isStatic sword) && _); [| now destruct s].
  destruct (isVertical _); [reflexivity | now destruct s].
Qed.

Lemma integrateOne_only_world (s : State) (mv : nat * Motion) :
  integrateOne s mv = set_world (world (integrateOne s mv)) s.
Proof.
  unfold integrateOne.
  destruct (World.lookup (world s) (fst mv)) as [b |]; [| now destruct s].
  destruct (Body.isStatic b); [now destruct s | reflexivity].
Qed.

Lemma fold_only_world {B : Type} (f : State -> B -> State) (l : list B) :
  (forall s b, f s b = set_world (world (f s b)) s) ->
  forall s, fold_left f l s = set_world (world (fold_left f l s)) s.
Proof.
  intros Hf. induction l as [| b l IH]; intros s; simpl.
  - now destruct s.
  - rewrite IH at 1. rewrite (Hf s b) at 2. reflexivity.
Qed.

Lemma physics_only_world
    (moves : list (nat * Motion)) (pairs : list (nat * nat)) (s : State) :
  collisionStart pairs (integrate moves s)
  = set_world (world (collisionStart pairs (integrate moves s))) s.
Proof.
  unfold collisionStart, integrate.
  rewrite (fold_only_world _ pairs collisionPair_only_world) at 1.
  rewrite (fold_only_world _ moves integrateOne_only_world s) at 2.
  reflexivity.
Qed.

Lemma physics_frame
    (moves : list (nat * Motion)) (pairs : list (nat * nat)) (s : State) :
  session_frame s (collisionStart pairs (integrate moves s)).
Proof.
  eapply session_frame_trans; [apply integrate_frame | apply collisionStart_frame].
Qed.

(** What one run of the listener does to the lives, for any world. *)
Lemma beforeUpdate_world_free (s : State) :
  maxLives (beforeUpdate s) = maxLives s /\
  (isPlaying s = true ->
   lives (beforeUpdate s)
   = (lives s - Z.of_nat (voidCount (canvas_height s) (world s)))%Z /\
   (isPlaying (beforeUpdate s) = false <->
    (0 < Z.of_nat (voidCount (canvas_height s) (world s)) /\
     lives s - Z.of_nat (voidCount (canvas_height s) (world s)) <= 0)%Z)).
Proof.
  unfold beforeUpdate.
  destruct (isPlaying s) eqn:Hp; cbn [negb]; cbv zeta.
  - destruct (voidChecks_account (world s) s) as (A & _ & _ & M & _ & _ & _ & P).
    cbv zeta in A, M, P.
    split; [exact M |]. intros _.
    split; [exact A |]. rewrite P, Hp. intuition discriminate.
  - split; [reflexivity | discriminate].
Qed.

Lemma step_lives_in_step (s : State) (e : Event) :
  lives_in_step s -> lives_in_step (step s e).
Proof.
  intros (Hm & Hl & Hp & Hn).
  destruct e as [x now rnd | moves pairs | w h |]; cbn [step].
  - unfold mousedown.
    destruct (negb (isPlaying s)); [repeat split; assumption |].
    destruct (now - lastSpawnTime s <? CONFIG.SWORD.COOLDOWN)%Z;
      repeat split; assumption.
  - rewrite physics_only_world.
    unfold lives_in_step. cbn [maxLives lives isPlaying set_world].
    destruct (isPlaying s) eqn:Ep.
    + destruct (beforeUpdate_world_free s) as (Hmax & Hacc).
      specialize (Hacc Ep). destruct Hacc as (A & P).
      rewrite Hmax, A.
      specialize (Hp eq_refl).
      repeat split; try lia.
      * intros Ht.
        destruct (Z.eq_dec (Z.of_nat (voidCount (canvas_height s) (world s))) 0)
          as [E0 | E0]; [lia |].
        destruct (Z_le_gt_dec
                    (lives s - Z.of_nat (voidCount (canvas_height s) (world s))) 0)
          as [Hle | Hgt]; [| lia].
        assert (Hf : isPlaying (beforeUpdate s) = false) by (apply P; lia).
        rewrite Hf in Ht. discriminate.
      * intros Hf. apply P in Hf. lia.
    + rewrite (beforeUpdate_over s Ep).
      rewrite Ep. repeat split; auto.
  - repeat split; assumption.
  - destruct (reset_eq s) as (v & _ & E). rewrite E.
    unfold lives_in_step. cbn. repeat split; try assumption; try lia.
Qed.

(** X4.  In every state a session reaches, [maxLives] is 3 and [lives]
    is at most 3; while the session is in play at least one life is
    left, and once it is over none is. *)
Theorem reachable_lives_in_step
    (noise2D : R -> R -> R) (w h : Z) (stored : option (list Z)) (s : State) :
  reachable (init noise2D w h stored) s ->
  maxLives s = 3%Z /\ (lives s <= 3)%Z /\
  (isPlaying s = true <-> (1 <= lives s)%Z).
Proof.
  intros Hr.
  assert (H : lives_in_step s).
  { induction Hr as [| s e _ IH].
    - destruct (init_eq noise2D w h stored) as (v & _ & E). rewrite E.
      unfold lives_in_step. cbn. repeat split; try lia; discriminate.
    - now apply step_lives_in_step. }
  destruct H as (Hm & Hl & Hp & Hn).
  split; [exact Hm |]. split; [exact Hl |].
  split; [exact Hp |].
  intros H1. destruct (isPlaying s); [reflexivity |].
  specialize (Hn eq_refl). lia.
Qed.

(** The state after four swords missed the island is reached from the
    initial one, so its lives and play status are in step. *)
Lemma reachable_lives_in_step_witness :
  let s := run Sample.four_misses (init (fun _ _ => 0) 1200 800 None) in
  maxLives s = 3%Z /\ (lives s <= 3)%Z /\
  (isPlaying s = true <-> (1 <= lives s)%Z).
Proof.
  apply (reachable_lives_in_step (fun _ _ => 0) 1200 800 None).
  apply run_reachable. constructor.
Defined.

(** ** The engine's bookkeeping along a session *)

Lemma combine_maps {A B C : Type} (f : A -> B) (g : A -> C) (l : list A) :
  combine (map f l) (map g l) = map (fun a => (f a, g a)) l.
Proof. induction l as [| a l IH]; simpl; [reflexivity | now rewrite IH]. Qed.

Lemma combine_app_same {A B : Type} (l1 a : list A) (l2 b : list B) :
  List.length l1 = List.length l2 ->
  combine (l1 ++ a) (l2 ++ b) = combine l1 l2 ++ combine a b.
Proof.
  revert l2. induction l1 as [| x l1 IH]; intros [| y l2] H;
    try discriminate; simpl; [reflexivity |].
  f_equal. apply IH. now injection H.
Qed.

(** With distinct identities, a reference finds the body it denotes. *)
Lemma NoDup_lookup (w : World.t) (b : Body.t) :
  NoDup (map Body.id w) -> In b w -> World.lookup w (Body.id b) = Some b.
Proof.
  induction w as [| c w IH]; intros Hnd Hin; [contradiction |].
  simpl in *. inversion Hnd as [| ? ? Hn Hd]; subst.
  destruct Hin as [-> | Hin].
  - now rewrite Nat.eqb_refl.
  - destruct (Nat.eqb (Body.id c) (Body.id b)) eqn:E.
    + apply Nat.eqb_eq in E. exfalso. apply Hn. rewrite E. now apply in_map.
    + now apply IH.
Qed.

(** Dropping bodies keeps the identities distinct. *)
Lemma filter_distinct_ids (keep : Body.t -> bool) (w : World.t) :
  NoDup (map Body.id w) -> NoDup (map Body.id (filter keep w)).
Proof.
  intros Hnd. induction w as [| c w IH]; simpl; [constructor |].
  simpl in Hnd. apply NoDup_cons_iff in Hnd. destruct Hnd as [Hc Hw].
  destruct (keep c); simpl; [| now apply IH].
  apply NoDup_cons; [| now apply IH].
  rewrite in_map_iff. intros (d & Hd & Hin).
  apply Hc. rewrite in_map_iff. exists d.
  apply filter_In in Hin. tauto.
Qed.

Lemma Forall_map_filter {A B : Type} (P : B -> Prop) (f : A -> B)
    (p : A -> bool) (l : list A) :
  Forall P (map f l) -> Forall P (map f (filter p l)).
Proof.
  rewrite !Forall_map, !Forall_forall.
  intros H a Ha. apply H. apply filter_In in Ha. tauto.
Qed.

(** The swords of a world: those the boundary check keeps and those it
    takes. *)
Lemma swords_kept_and_taken (h : Z) (w : World.t) :
  labelCount "sword" w
  = (labelCount "sword" (filter (fun b => negb (inVoid h b)) w)
     + voidCount h w)%nat.
Proof.
  unfold labelCount, voidCount.
  induction w as [| b w IH]; [reflexivity |].
  cbn [filter map count_occ].
  destruct (inVoid h b) eqn:Hv; cbn [negb map count_occ List.length].
  - unfold inVoid in Hv. apply andb_prop in Hv. destruct Hv as [Hl _].
    apply String.eqb_eq in Hl.
    destruct (string_dec (Body.label b) "sword"); [| contradiction].
    rewrite IH. lia.
  - destruct (string_dec (Body.label b) "sword"); rewrite IH; lia.
Qed.

Lemma grounds_kept (h : Z) (w : World.t) :
  labelCount "ground" (filter (fun b => negb (inVoid h b)) w)
  = labelCount "ground" w.
Proof.
  unfold labelCount.
  induction w as [| b w IH]; [reflexivity |].
  cbn [filter map count_occ].
  destruct (inVoid h b) eqn:Hv; cbn [negb map count_occ].
  - unfold inVoid in Hv. apply andb_prop in Hv. destruct Hv as [Hl _].
    apply String.eqb_eq in Hl.
    destruct (string_dec (Body.label b) "ground") as [E | E].
    + rewrite Hl in E. discriminate.
    + exact IH.
  - destruct (string_dec (Body.label b) "ground"); now rewrite IH.
Qed.

Lemma island_kept (h : Z) (w : World.t) (i : nat) :
  In (i, "ground"%string) (combine (map Body.id w) (map Body.label w)) ->
  In (i, "ground"%string)
     (combine (map Body.id (filter (fun b => negb (inVoid h b)) w))
              (map Body.label (filter (fun b => negb (inVoid h b)) w))).
Proof.
  rewrite !combine_maps, !in_map_iff.
  intros (b & Hb & Hin). exists b. split; [exact Hb |].
  apply filter_In. split; [exact Hin |].
  injection Hb as _ Hl. unfold inVoid. rewrite Hl. reflexivity.
Qed.

(** The bookkeeping survives anything that keeps the identities, the
    labels and the counters. *)
Lemma well_formed_frame (s s' : State) :
  session_frame s s' ->
  nextId s' = nextId s -> islandBody s' = islandBody s ->
  well_formed s -> well_formed s'.
Proof.
  intros (_ & _ & Hc & _ & _ & Hi & Hl) Hn Hb.
  unfold well_formed, labelCount. now rewrite Hi, Hl, Hc, Hn, Hb.
Qed.

Lemma step_well_formed (s : State) (e : Event) :
  well_formed s -> well_formed (step s e).
Proof.
  intros Hwf.
  destruct e as [x now rnd | moves pairs | w h |]; cbn [step].
  - unfold mousedown.
    destruct (negb (isPlaying s)); [assumption |].
    destruct (now - lastSpawnTime s <? CONFIG.SWORD.COOLDOWN)%Z; [assumption |].
    destruct Hwf as (H1 & H2 & H3 & H4 & H5 & i & H6 & H7).
    unfold well_formed, labelCount in *.
    cbn [world nextId swordsOnScreen islandBody set_lastSpawnTime spawnSword
         set_swordsOnScreen set_world set_nextId].
    unfold World.add. rewrite !map_app. cbn [map Body.id Body.label Bodies.rectangle
                           Body.setAngularVelocity].
    rewrite !count_occ_app. cbn [count_occ].
    destruct (string_dec "sword" "sword") as [_ | n]; [| contradiction].
    destruct (string_dec "sword" "ground") as [d | _]; [discriminate |].
    split.
    { apply NoDup_app; [exact H1 | repeat constructor; tauto |].
      intros a Ha [<- | []]. rewrite Forall_forall in H2.
      specialize (H2 _ Ha). lia. }
    split.
    { apply Forall_app. split.
      - eapply Forall_impl; [| exact H2]. cbn. lia.
      - repeat constructor. }
    split; [lia |].
    split; [lia |].
    split.
    { apply Forall_app. split; [exact H5 | repeat constructor]. }
    exists i. split; [exact H6 |].
    rewrite combine_app_same by (now rewrite !length_map).
    apply in_or_app. now left.
  - assert (Hb : well_formed (beforeUpdate s)).
    { destruct (isPlaying s) eqn:Ep;
        [| now rewrite (beforeUpdate_over s Ep)].
      destruct Hwf as (H1 & H2 & H3 & H4 & H5 & i & H6 & H7).
      assert (Ew := beforeUpdate_world s Ep H1).
      unfold beforeUpdate. rewrite Ep. cbn [negb]. cbv zeta.
      unfold beforeUpdate in Ew. rewrite Ep in Ew. cbn [negb] in Ew.
      destruct (voidChecks_account (world s) s)
        as (_ & C & _ & _ & N & I & _ & _).
      cbv zeta in C, N, I, Ew.
      unfold well_formed. rewrite Ew, C, N, I.
      split; [now apply filter_distinct_ids |].
      split; [now apply Forall_map_filter |].
      split.
      { rewrite H3, (swords_kept_and_taken (canvas_height s) (world s)). lia. }
      split; [now rewrite grounds_kept |].
      split; [now apply Forall_map_filter |].
      exists i. split; [exact H6 | now apply island_kept]. }
    apply (well_formed_frame (beforeUpdate s)); [apply physics_frame | | | exact Hb];
      rewrite physics_only_world; reflexivity.
  - exact Hwf.
  - destruct (reset_eq s) as (v & _ & E). rewrite E.
    unfold well_formed, labelCount. cbn.
    split; [repeat constructor; tauto |].
    split; [repeat constructor |].
    split; [reflexivity |].
    split; [reflexivity |].
    split; [repeat constructor; tauto |].
    exists (nextId s). split; [reflexivity | now left].
Qed.

Lemma init_well_formed
    (noise2D : R -> R -> R) (w h : Z) (stored : option (list Z)) :
  well_formed (init noise2D w h stored).
Proof.
  destruct (init_eq noise2D w h stored) as (v & _ & E). rewrite E.
  unfold well_formed, labelCount. cbn.
  split; [repeat constructor; tauto |].
  split; [repeat constructor |].
  split; [reflexivity |].
  split; [reflexivity |].
  split; [repeat constructor; tauto |].
  exists 0%nat. split; [reflexivity | now left].
Qed.

Lemma reachable_well_formed (s0 s : State) :
  well_formed s0 -> reachable s0 s -> well_formed s.
Proof.
  intros H0 Hr. induction Hr as [| s e _ IH]; [exact H0 |].
  now apply step_well_formed.
Qed.

(** X5.  In every state a session reaches, the bodies of the world have
    distinct identities; the sword counter equals the number of bodies
    labelled sword, pinned or not; exactly one body is labelled ground,
    and it is the one [WorldGenerator.islandBody] refers to; and every
    body is labelled sword or ground. *)
Theorem reachable_bookkeeping
    (noise2D : R -> R -> R) (w h : Z) (stored : option (list Z)) (s : State) :
  reachable (init noise2D w h stored) s ->
  NoDup (map Body.id (world s)) /\
  swordsOnScreen s = Z.of_nat (labelCount "sword" (world s)) /\
  labelCount "ground" (world s) = 1%nat /\
  (forall b : Body.t, In b (world s) ->
     Body.label b = "sword"%string \/ Body.label b = "ground"%string) /\
  exists island : Body.t,
    islandBody s = Some (Body.id island) /\
    World.lookup (world s) (Body.id island) = Some island /\
    Body.label island = "ground"%string /\ Body.isStatic island = true.
Proof.
  intros Hr.
  assert (Hg := reachable_grounds_static noise2D w h stored s Hr).
  apply (reachable_well_formed _ _ (init_well_formed noise2D w h stored)) in Hr.
  destruct Hr as (H1 & _ & H3 & H4 & H5 & i & H6 & H7).
  split; [exact H1 |]. split; [exact H3 |]. split; [exact H4 |].
  split.
  { intros b Hb. rewrite Forall_forall in H5. apply H5. now apply in_map. }
  rewrite combine_maps in H7. apply in_map_iff in H7.
  destruct H7 as (b & Hb & Hin). injection Hb as Hi Hl.
  exists b. rewrite Hi. split; [exact H6 |].
  split.
  { rewrite <- Hi. now apply NoDup_lookup. }
  split; [exact Hl |].
  unfold grounds_static in Hg. rewrite Forall_forall in Hg. now apply Hg.
Qed.

Lemma reachable_bookkeeping_witness :
  let s := run Sample.pin_then_shrink (init (fun _ _ => 0) 1600 1300 None) in
  NoDup (map Body.id (world s)) /\
  swordsOnScreen s = Z.of_nat (labelCount "sword" (world s)) /\
  labelCount "ground" (world s) = 1%nat.
Proof.
  cbv zeta.
  destruct (reachable_bookkeeping (fun _ _ => 0) 1600 1300 None
              (run Sample.pin_then_shrink (init (fun _ _ => 0) 1600 1300 None)))
    as (H1 & H2 & H3 & _).
  { apply run_reachable. constructor. }
  auto.
Defined.


(** ** The high-score table along a session *)

Lemma saveScore_scores (s : State) :
  highScores (saveScore s) = savedScores (highScores s) (swordsOnScreen s) /\
  excalibur_scores (saveScore s)
  = Some (savedScores (highScores s) (swordsOnScreen s)).
Proof. split; reflexivity. Qed.

Lemma savedScores_shape (hs : list Z) (v : Z) :
  descending (savedScores hs v) /\ (List.length (savedScores hs v) <= 3)%nat.
Proof.
  unfold savedScores, Array_slice0.
  set (sorted := Array_sort (fun a b => (b - a)%Z) (hs ++ [v])).
  assert (Hd : descending (firstn 3 sorted ++ skipn 3 sorted)).
  { rewrite firstn_skipn. apply Array_sort_descending. }
  destruct (descending_split _ _ Hd) as [H1 _].
  split; [exact H1 | apply firstn_le_length].
Qed.

(** One body of the loop either leaves the table, the stored scores and
    the play status alone, or ends play and saves the sword count. *)
Lemma voidCheck_scores (s : State) (b : Body.t) :
  (highScores (voidCheck s b) = highScores s /\
   excalibur_scores (voidCheck s b) = excalibur_scores s /\
   isPlaying (voidCheck s b) = isPlaying s) \/
  (highScores (voidCheck s b)
   = savedScores (highScores s) (swordsOnScreen s - 1) /\
   excalibur_scores (voidCheck s b)
   = Some (savedScores (highScores s) (swordsOnScreen s - 1)) /\
   isPlaying (voidCheck s b) = false).
Proof.
  unfold voidCheck.
  destruct (inVoid (canvas_height s) b); [| left; repeat split].
  cbv zeta. unfold triggerLifeLoss. cbv zeta. cbn [lives set_lives].
  destruct (_ <=? 0)%Z; [right | left]; repeat split.
Qed.

(** A property of the table and the stored scores that every save
    establishes holds after the loop if it held before, and holds in any
    case once the loop has ended play. *)
Lemma voidChecks_scores (P : list Z -> option (list Z) -> Prop) :
  (forall hs v, P (savedScores hs v) (Some (savedScores hs v))) ->
  forall (l : list Body.t) (s : State),
    let s' := fold_left voidCheck l s in
    (P (highScores s) (excalibur_scores s) ->
     P (highScores s') (excalibur_scores s')) /\
    (isPlaying s = true -> isPlaying s' = false ->
     P (highScores s') (excalibur_scores s')).
Proof.
  intros HP l. induction l as [| b l IH]; intros s; cbv zeta.
  - split; [auto |]. intros H1 H2. cbn in H2. congruence.
  - rewrite fold_left_cons.
    destruct (IH (voidCheck s b)) as [IH1 IH2]. cbv zeta in IH1, IH2.
    destruct (voidCheck_scores s b) as [(A & B & C) | (A & B & C)].
    + rewrite A, B in IH1. rewrite C in IH2. split; auto.
    + assert (Hs : P (highScores (voidCheck s b))
                     (excalibur_scores (voidCheck s b)))
        by (rewrite A, B; apply HP).
      split; auto.
Qed.

Lemma step_scores (P : list Z -> option (list Z) -> Prop) (s : State) (e : Event) :
  (forall hs v, P (savedScores hs v) (Some (savedScores hs v))) ->
  (P (highScores s) (excalibur_scores s) ->
   P (highScores (step s e)) (excalibur_scores (step s e))) /\
  (isPlaying s = true -> isPlaying (step s e) = false ->
   P (highScores (step s e)) (excalibur_scores (step s e))).
Proof.
  intros HP.
  destruct e as [x now rnd | moves pairs | w h |]; cbn [step].
  - unfold mousedown.
    destruct (negb (isPlaying s)); [split; [auto | congruence] |].
    destruct (now - lastSpawnTime s <? CONFIG.SWORD.COOLDOWN)%Z;
      (split; [auto | cbn; congruence]).
  - rewrite physics_only_world.
    cbn [highScores excalibur_scores isPlaying set_world].
    unfold beforeUpdate.
    destruct (isPlaying s) eqn:Ep; cbn [negb]; cbv zeta.
    + destruct (voidChecks_scores P HP (world s) s) as [H1 H2].
      cbv zeta in H1, H2. split; [exact H1 | auto].
    + split; [auto | discriminate].
  - split; [auto | cbn; congruence].
  - destruct (reset_eq s) as (v & _ & E). rewrite E. cbn.
    split; [auto | discriminate].
Qed.

(** X6.  Whenever an event ends play, the table has just been saved:
    the stored scores are the table, which is in descending order and
    has at most three entries. *)
Theorem game_over_persists (s : State) (e : Event) :
  isPlaying s = true ->
  isPlaying (step s e) = false ->
  excalibur_scores (step s e) = Some (highScores (step s e)) /\
  descending (highScores (step s e)) /\
  (List.length (highScores (step s e)) <= 3)%nat.
Proof.
  intros Hp Hf.
  destruct (step_scores
              (fun hs st => st = Some hs /\ descending hs /\
                            (List.length hs <= 3)%nat) s e) as [_ H2];
    [intros hs v; split; [reflexivity | apply savedScores_shape] |].
  now apply H2.
Qed.

(** With one life left and one sword below the boundary, the next tick
    ends play and stores the table. *)
Lemma game_over_persists_witness :
  let s := set_lives 1
             (set_world [Sample.terrain; Sample.sunk 1] Sample.playing) in
  excalibur_scores (step s (Tick [] []))
  = Some (highScores (step s (Tick [] []))).
Proof.
  cbv zeta.
  assert (Hv : inVoid 800 (Sample.sunk 1) = true).
  { unfold inVoid.
    cbn [Body.label Sample.sunk String.eqb Ascii.eqb Bool.eqb andb
         Body.position Vector.y].
    apply JSFacts.gtb_true. lra. }
  assert (Hf : isPlaying
                 (step (set_lives 1
                          (set_world [Sample.terrain; Sample.sunk 1]
                             Sample.playing)) (Tick [] [])) = false).
  { cbn [step integrate collisionStart fold_left].
    unfold beforeUpdate.
    cbn [isPlaying set_lives set_world Sample.playing negb world].
    rewrite fold_left_cons, voidCheck_stays by reflexivity.
    rewrite fold_left_cons, voidCheck_falls by exact Hv.
    rewrite triggerLifeLoss_over by (cbn; lia).
    reflexivity. }
  apply (game_over_persists
           (set_lives 1
              (set_world [Sample.terrain; Sample.sunk 1] Sample.playing))
           (Tick [] []) eq_refl Hf).
Defined.

(** X7.  In every state a session reaches, the table is what a page
    load would make of the stored scores: reloading the page at any
    moment brings back the same table. *)
Theorem reachable_scores_stored
    (noise2D : R -> R -> R) (w h : Z) (stored : option (list Z)) (s : State) :
  reachable (init noise2D w h stored) s ->
  highScores s = loadScores (excalibur_scores s) /\
  forall (noise2D' : R -> R -> R) (w' h' : Z),
    highScores (init noise2D' w' h' (excalibur_scores s)) = highScores s.
Proof.
  intros Hr.
  assert (H : highScores s = loadScores (excalibur_scores s)).
  { induction Hr as [| s e _ IH].
    - destruct (init_eq noise2D w h stored) as (v & _ & E). rewrite E.
      reflexivity.
    - destruct (step_scores (fun hs st => hs = loadScores st) s e) as [H1 _];
        [reflexivity | now apply H1]. }
  split; [exact H |].
  intros n' w' h'.
  destruct (init_eq n' w' h' (excalibur_scores s)) as (v & _ & E). rewrite E.
  cbn [highScores]. symmetry. exact H.
Qed.

Lemma reachable_scores_stored_witness :
  let s := step (run Sample.four_misses (init (fun _ _ => 0) 1200 800 None))
             (Tick [] []) in
  highScores (init (fun _ _ => 0) 1200 800 (excalibur_scores s)) = highScores s.
Proof.
  cbv zeta.
  apply (reachable_scores_stored (fun _ _ => 0) 1200 800 None).
  constructor. apply run_reachable. constructor.
Defined.

(** X8.  In every state a session reaches, the table is either the one
    the page loaded or a list in descending order with at most three
    entries; so a stored table of that shape keeps it for good. *)
Theorem reachable_scores_shape
    (noise2D : R -> R -> R) (w h : Z) (stored : option (list Z)) (s : State) :
  reachable (init noise2D w h stored) s ->
  (highScores s = loadScores stored \/
   (descending (highScores s) /\ (List.length (highScores s) <= 3)%nat)) /\
  (descending (loadScores stored) ->
   (List.length (loadScores stored) <= 3)%nat ->
   descending (highScores s) /\ (List.length (highScores s) <= 3)%nat).
Proof.
  intros Hr.
  assert (H : highScores s = loadScores stored \/
              (descending (highScores s) /\
               (List.length (highScores s) <= 3)%nat)).
  { induction Hr as [| s e _ IH].
    - destruct (init_eq noise2D w h stored) as (v & _ & E). rewrite E.
      left. reflexivity.
    - destruct (step_scores
                  (fun hs _ => hs = loadScores stored \/
                               (descending hs /\ (List.length hs <= 3)%nat))
                  s e) as [H1 _];
        [intros hs v; right; apply savedScores_shape | now apply H1]. }
  split; [exact H |].
  intros Hd Hl. destruct H as [-> | H]; auto.
Qed.

Lemma reachable_scores_shape_witness :
  let s := step (run Sample.four_misses (init (fun _ _ => 0) 1200 800 None))
             (Tick [] []) in
  descending (highScores s) /\ (List.length (highScores s) <= 3)%nat.
Proof.
  cbv zeta.
  destruct (reachable_scores_shape (fun _ _ => 0) 1200 800 None
              (step (run Sample.four_misses (init (fun _ _ => 0) 1200 800 None))
                 (Tick [] []))) as [_ H].
  { constructor. apply run_reachable. constructor. }
  apply H.
  - repeat constructor; lia.
  - cbn. lia.
Defined.

(** ** Where a new score lands in the table *)

(** Inserting a value that is at least the head of the list. *)
Lemma sort_insert_front (a : Z) (l : list Z) :
  (forall b, In b l -> (b <= a)%Z) ->
  sort_insert (fun a b => (b - a)%Z) a l = a :: l.
Proof.
  destruct l as [| b l]; intros H; simpl; [reflexivity |].
  assert (Hb : (b <= a)%Z) by (apply H; now left).
  assert (E : (b - a <=? 0)%Z = true) by (apply Z.leb_le; lia).
  now rewrite E.
Qed.

Lemma filter_none {A : Type} (p : A -> bool) (l : list A) :
  (forall a, In a l -> p a = false) -> filter p l = [].
Proof.
  induction l as [| a l IH]; intros H; simpl; [reflexivity |].
  rewrite (H a) by now left. apply IH. intros b Hb. apply H. now right.
Qed.

Lemma filter_all {A : Type} (p : A -> bool) (l : list A) :
  (forall a, In a l -> p a = true) -> filter p l = l.
Proof.
  induction l as [| a l IH]; intros H; simpl; [reflexivity |].
  rewrite (H a) by now left. f_equal. apply IH. intros b Hb. apply H. now right.
Qed.

Lemma firstn_exact {A : Type} (n : nat) (l x : list A) :
  List.length l = n -> firstn n (l ++ x) = l.
Proof.
  intros <-. induction l as [| a l IH]; simpl; [reflexivity | now rewrite IH].
Qed.

(** Sorting a descending table with one value pushed at its end puts the
    value after the entries that are at least as large. *)
Lemma sort_pushed (hs : list Z) (v : Z) :
  descending hs ->
  Array_sort (fun a b => (b - a)%Z) (hs ++ [v])
  = filter (fun a => (v <=? a)%Z) hs ++ v :: filter (fun a => (a <? v)%Z) hs.
Proof.
  unfold Array_sort, descending. rewrite fold_right_app. cbn [fold_right sort_insert].
  induction hs as [| a hs IH]; intros Hd; [reflexivity |].
  inversion Hd as [| ? ? Hd' Ha]; subst.
  rewrite Forall_forall in Ha.
  cbn [fold_right filter]. rewrite (IH Hd').
  destruct (v <=? a)%Z eqn:E.
  - apply Z.leb_le in E.
    assert (E' : (a <? v)%Z = false) by (apply Z.ltb_ge; lia).
    rewrite E'. cbn [app].
    apply sort_insert_front.
    intros b Hb. apply in_app_or in Hb. destruct Hb as [Hb | [<- | Hb]].
    + apply filter_In in Hb. apply Ha. tauto.
    + exact E.
    + apply filter_In in Hb. apply Ha. tauto.
  - apply Z.leb_gt in E.
    assert (E' : (a <? v)%Z = true) by (apply Z.ltb_lt; lia).
    rewrite E'.
    rewrite (filter_none (fun a0 => (v <=? a0)%Z) hs)
      by (intros b Hb; apply Z.leb_gt; specialize (Ha b Hb); lia).
    rewrite (filter_all (fun a0 => (a0 <? v)%Z) hs)
      by (intros b Hb; apply Z.ltb_lt; specialize (Ha b Hb); lia).
    cbn [app sort_insert].
    assert (Ev : (v - a <=? 0)%Z = false) by (apply Z.leb_gt; lia).
    rewrite Ev. f_equal.
    apply sort_insert_front. exact Ha.
Qed.

(** X9.  On a table in descending order, [saveScore] puts the sword
    count after the entries that are at least as large and before the
    smaller ones, then keeps the first three.  So a count below the
    third entry of a full table leaves the table as it was, and a count
    above every entry becomes the first. *)
Theorem saveScore_position (s : State) :
  descending (highScores s) ->
  let hs := highScores s in
  let v := swordsOnScreen s in
  highScores (saveScore s)
  = firstn 3 (filter (fun a => (v <=? a)%Z) hs
              ++ v :: filter (fun a => (a <? v)%Z) hs) /\
  ((3 <= List.length hs)%nat -> (forall a, In a (firstn 3 hs) -> (v <= a)%Z) ->
   highScores (saveScore s) = firstn 3 hs) /\
  ((forall a, In a hs -> (a < v)%Z) ->
   highScores (saveScore s) = v :: firstn 2 hs).
Proof.
  intros Hd hs v.
  assert (E : highScores (saveScore s)
              = firstn 3 (filter (fun a => (v <=? a)%Z) hs
                          ++ v :: filter (fun a => (a <? v)%Z) hs)).
  { destruct (saveScore_scores s) as [E _]. rewrite E.
    unfold savedScores, Array_slice0. now rewrite (sort_pushed _ _ Hd). }
  split; [exact E |]. split.
  - intros Hlen Hall. rewrite E.
    assert (Hl3 : List.length (firstn 3 hs) = 3%nat)
      by (rewrite length_firstn; lia).
    rewrite <- (firstn_skipn 3 hs) at 1.
    rewrite filter_app.
    rewrite (filter_all _ (firstn 3 hs))
      by (intros a Ha; apply Z.leb_le; now apply Hall).
    rewrite <- app_assoc.
    now apply firstn_exact.
  - intros Hall. rewrite E.
    rewrite (filter_none (fun a => (v <=? a)%Z) hs)
      by (intros a Ha; apply Z.leb_gt; now apply Hall).
    rewrite (filter_all (fun a => (a <? v)%Z) hs)
      by (intros a Ha; apply Z.ltb_lt; now apply Hall).
    reflexivity.
Qed.

(** A table 5, 3, 1: a session of two swords leaves it alone, a session
    of seven takes the first place. *)
Lemma saveScore_position_witness :
  let t := set_highScores [5; 3; 1]%Z Sample.playing in
  highScores (saveScore (set_swordsOnScreen 0 t)) = [5; 3; 1]%Z /\
  highScores (saveScore (set_swordsOnScreen 7 t)) = [7; 5; 3]%Z.
Proof.
  cbv zeta.
  assert (Hd : descending [5; 3; 1]%Z) by (repeat constructor; lia).
  split.
  - destruct (saveScore_position
                (set_swordsOnScreen 0 (set_highScores [5; 3; 1]%Z Sample.playing))
                Hd) as (_ & H & _).
    apply H; [cbn; lia |].
    cbn. intros a [<- | [<- | [<- | []]]]; lia.
  - destruct (saveScore_position
                (set_swordsOnScreen 7 (set_highScores [5; 3; 1]%Z Sample.playing))
                Hd) as (_ & _ & H).
    apply H. cbn. intros a [<- | [<- | [<- | []]]]; lia.
Defined.

(** ** Static bodies are left where they are *)

Lemma lookup_app_l (w : World.t) (x : Body.t) (i : nat) (b : Body.t) :
  World.lookup w i = Some b -> World.lookup (w ++ [x]) i = Some b.
Proof.
  induction w as [| c w IH]; simpl; [discriminate |].
  destruct (Nat.eqb (Body.id c) i); [auto | exact IH].
Qed.

(** Writing to a non-static body leaves a static one as it is. *)
Lemma store_keeps_static (w : World.t) (b c c' : Body.t) :
  Body.isStatic b = true -> Body.isStatic c = false ->
  Body.id c' = Body.id c ->
  World.lookup w (Body.id b) = Some b ->
  World.lookup w (Body.id c) = Some c ->
  World.lookup (World.store w c') (Body.id b) = Some b.
Proof.
  intros Hb Hc Hid Lb Lc.
  rewrite WorldFacts.lookup_store_other; [exact Lb |].
  rewrite Hid. intros E. rewrite E in Lb. rewrite Lb in Lc.
  injection Lc as ->. rewrite Hb in Hc. discriminate.
Qed.

Lemma collisionPair_keeps_static (s : State) (pair : nat * nat) (b : Body.t) :
  Body.isStatic b = true ->
  World.lookup (world s) (Body.id b) = Some b ->
  World.lookup (world (collisionPair s pair)) (Body.id b) = Some b.
Proof.
  intros Hb Lb. unfold collisionPair.
  destruct (World.lookup (world s) (fst pair)) as [bodyA |] eqn:HA; [| exact Lb].
  destruct (World.lookup (world s) (snd pair)) as [bodyB |] eqn:HB; [| exact Lb].
  assert (IA := WorldFacts.lookup_id _ _ _ HA).
  assert (IB := WorldFacts.lookup_id _ _ _ HB).
  rewrite <- IA in HA. rewrite <- IB in HB.
  unfold identify.
  destruct (String.eqb (Body.label bodyA) "sword").
  - destruct (Body.isStatic bodyA) eqn:SA; cbn [negb andb]; [exact Lb |].
    destruct (String.eqb (Body.label bodyB) "ground"); [| exact Lb].
    destruct (isVertical (Body.angle bodyA)); [| exact Lb].
    cbn [world set_world].
    now apply (store_keeps_static (world s) b bodyA (pin bodyA)).
  - destruct (String.eqb (Body.label bodyB) "sword"); [| exact Lb].
    destruct (Body.isStatic bodyB) eqn:SB; cbn [negb andb]; [exact Lb |].
    destruct (String.eqb (Body.label bodyA) "ground"); [| exact Lb].
    destruct (isVertical (Body.angle bodyB)); [| exact Lb].
    cbn [world set_world].
    now apply (store_keeps_static (world s) b bodyB (pin bodyB)).
Qed.

Lemma integrateOne_keeps_static (s : State) (mv : nat * Motion) (b : Body.t) :
  Body.isStatic b = true ->
  World.lookup (world s) (Body.id b) = Some b ->
  World.lookup (world (integrateOne s mv)) (Body.id b) = Some b.
Proof.
  intros Hb Lb. unfold integrateOne.
  destruct (World.lookup (world s) (fst mv)) as [c |] eqn:Hc; [| exact Lb].
  assert (Ic := WorldFacts.lookup_id _ _ _ Hc). rewrite <- Ic in Hc.
  destruct (Body.isStatic c) eqn:Sc; [exact Lb |].
  cbn [world set_world].
  now apply (store_keeps_static (world s) b c (move (snd mv) c)).
Qed.

Lemma fold_keeps_static {B : Type} (f : State -> B -> State) (b : Body.t) :
  (forall s x, World.lookup (world s) (Body.id b) = Some b ->
               World.lookup (world (f s x)) (Body.id b) = Some b) ->
  forall (l : list B) (s : State),
    World.lookup (world s) (Body.id b) = Some b ->
    World.lookup (world (fold_left f l s)) (Body.id b) = Some b.
Proof.
  intros Hf l. induction l as [| x l IH]; intros s Hs; simpl; auto.
Qed.

(** X10.  A static body is never moved or changed: across a press, a
    resize, or a tick in which the boundary check does not take it, it
    stays in the world with the position, the angle and the velocities
    it had. *)
Theorem static_body_frozen (s : State) (e : Event) (b : Body.t) :
  NoDup (map Body.id (world s)) ->
  In b (world s) ->
  Body.isStatic b = true ->
  e <> Restart ->
  (forall moves pairs, e = Tick moves pairs -> isPlaying s = true ->
     inVoid (canvas_height s) b = false) ->
  World.lookup (world (step s e)) (Body.id b) = Some b /\
  In b (world (step s e)).
Proof.
  intros Hnd Hin Hb He Hv.
  assert (Lb := NoDup_lookup _ _ Hnd Hin).
  assert (L : World.lookup (world (step s e)) (Body.id b) = Some b).
  { destruct e as [x now rnd | moves pairs | w h |]; cbn [step].
    - unfold mousedown.
      destruct (negb (isPlaying s)); [exact Lb |].
      destruct (now - lastSpawnTime s <? CONFIG.SWORD.COOLDOWN)%Z; [exact Lb |].
      cbn [world set_lastSpawnTime spawnSword set_swordsOnScreen set_world].
      now apply lookup_app_l.
    - unfold collisionStart, integrate.
      apply (fold_keeps_static collisionPair b);
        [intros; now apply collisionPair_keeps_static |].
      apply (fold_keeps_static integrateOne b);
        [intros; now apply integrateOne_keeps_static |].
      destruct (isPlaying s) eqn:Ep;
        [| now rewrite (beforeUpdate_over s Ep)].
      rewrite (beforeUpdate_world s Ep Hnd).
      apply NoDup_lookup; [now apply filter_distinct_ids |].
      apply filter_In. split; [exact Hin |].
      now rewrite (Hv moves pairs eq_refl eq_refl).
    - exact Lb.
    - contradiction. }
  split; [exact L | now apply (WorldFacts.lookup_In _ _ _ L)].
Qed.

(** The terrain of the sample session stays through a tick that moves
    the fallen sword and reports it against the terrain. *)
Lemma static_body_frozen_witness :
  World.lookup
    (world (step Sample.playing
              (Tick [(1%nat, Sample.landed)] [(1%nat, 0%nat)]))) 0
  = Some Sample.terrain.
Proof.
  apply (static_body_frozen Sample.playing
           (Tick [(1%nat, Sample.landed)] [(1%nat, 0%nat)]) Sample.terrain).
  - cbn. repeat constructor; cbn; intuition discriminate.
  - now left.
  - reflexivity.
  - discriminate.
  - intros. reflexivity.
Defined.

(** ** All the collision listener ever does *)

Lemma kept_or_pinned_refl (w : World.t) : kept_or_pinned w w.
Proof. intros i b' H. exists b'. auto. Qed.

Lemma kept_or_pinned_trans (w1 w2 w3 : World.t) :
  kept_or_pinned w1 w2 -> kept_or_pinned w2 w3 -> kept_or_pinned w1 w3.
Proof.
  intros H12 H23 i b3 L3.
  destruct (H23 i b3 L3) as (b2 & L2 & C2).
  destruct (H12 i b2 L2) as (b1 & L1 & C1).
  exists b1. split; [exact L1 |].
  destruct C2 as [-> | (-> & Hl & Hs & Hv)]; [exact C1 |].
  destruct C1 as [-> | (-> & _)].
  - right. auto.
  - discriminate Hs.
Qed.

Lemma pin_kept_or_pinned (w : World.t) (sword : Body.t) :
  World.lookup w (Body.id sword) = Some sword ->
  Body.label sword = "sword"%string ->
  Body.isStatic sword = false ->
  isVertical (Body.angle sword) = true ->
  kept_or_pinned w (World.store w (pin sword)).
Proof.
  intros L Hl Hs Hv i b' L'.
  destruct (Nat.eq_dec i (Body.id sword)) as [-> | Hi].
  - pose proof (WorldFacts.lookup_store_same w (pin sword) sword L) as E.
    change (Body.id (pin sword)) with (Body.id sword) in E.
    rewrite E in L'. injection L' as <-. exists sword. split; [exact L |]. right. auto.
  - rewrite (WorldFacts.lookup_store_other w (pin sword) i) in L' by exact Hi.
    exists b'. auto.
Qed.

Lemma collisionPair_kept_or_pinned (s : State) (pair : nat * nat) :
  kept_or_pinned (world s) (world (collisionPair s pair)).
Proof.
  unfold collisionPair.
  destruct (World.lookup (world s) (fst pair)) as [bodyA |] eqn:HA;
    [| apply kept_or_pinned_refl].
  destruct (World.lookup (world s) (snd pair)) as [bodyB |] eqn:HB;
    [| apply kept_or_pinned_refl].
  assert (IA := WorldFacts.lookup_id _ _ _ HA).
  assert (IB := WorldFacts.lookup_id _ _ _ HB).
  rewrite <- IA in HA. rewrite <- IB in HB.
  unfold identify.
  destruct (String.eqb (Body.label bodyA) "sword") eqn:EA.
  - apply String.eqb_eq in EA.
    destruct (Body.isStatic bodyA) eqn:SA; cbn [negb andb];
      [apply kept_or_pinned_refl |].
    destruct (String.eqb (Body.label bodyB) "ground");
      [| apply kept_or_pinned_refl].
    destruct (isVertical (Body.angle bodyA)) eqn:VA;
      [| apply kept_or_pinned_refl].
    cbn [world set_world]. now apply pin_kept_or_pinned.
  - destruct (String.eqb (Body.label bodyB) "sword") eqn:EB;
      [| apply kept_or_pinned_refl].
    apply String.eqb_eq in EB.
    destruct (Body.isStatic bodyB) eqn:SB; cbn [negb andb];
      [apply kept_or_pinned_refl |].
    destruct (String.eqb (Body.label bodyA) "ground");
      [| apply kept_or_pinned_refl].
    destruct (isVertical (Body.angle bodyB)) eqn:VB;
      [| apply kept_or_pinned_refl].
    cbn [world set_world]. now apply pin_kept_or_pinned.
Qed.

(** X11.  Whatever pairs a collision event reports, the listener writes
    to the world alone, adds and removes no body, and leaves every body
    either untouched or pinned; it pins only non-static bodies labelled
    sword whose angle passes the verticality test.  It never moves a
    body, never touches the terrain and never releases a pinned sword. *)
Theorem collisionStart_only_pins (pairs : list (nat * nat)) (s : State) :
  let s' := collisionStart pairs s in
  s' = set_world (world s') s /\
  map Body.id (world s') = map Body.id (world s) /\
  kept_or_pinned (world s) (world s') /\
  (forall (i : nat) (b : Body.t),
     World.lookup (world s) i = Some b -> Body.isStatic b = true ->
     World.lookup (world s') i = Some b).
Proof.
  cbv zeta.
  split; [apply (fold_only_world _ pairs collisionPair_only_world) |].
  split; [apply (collisionStart_frame pairs s) |].
  split.
  - unfold collisionStart. revert s.
    induction pairs as [| p pairs IH]; intros s; simpl;
      [apply kept_or_pinned_refl |].
    eapply kept_or_pinned_trans; [apply collisionPair_kept_or_pinned | apply IH].
  - intros i b L Hb.
    assert (Hi := WorldFacts.lookup_id _ _ _ L). subst i.
    unfold collisionStart.
    apply (fold_keeps_static collisionPair b); [| exact L].
    intros; now apply collisionPair_keeps_static.
Qed.

(** ** Symmetries of the verticality test *)

Lemma trunc_opp (x : R) : JS.trunc (- x) = (- JS.trunc x)%Z.
Proof.
  unfold JS.trunc.
  destruct (Rle_dec 0 x) as [Hx | Hx]; destruct (Rle_dec 0 (- x)) as [Hn | Hn].
  - assert (x = 0) by lra. subst x. rewrite Ropp_0.
    assert (E : Int_part 0 = 0%Z) by (apply JSFacts.floor_unique; simpl; lra).
    rewrite E. reflexivity.
  - rewrite Ropp_involutive. reflexivity.
  - lia.
  - lra.
Qed.

Lemma rem_opp (a p : R) : JS.rem (- a) p = - JS.rem a p.
Proof.
  unfold JS.rem.
  replace (- a / p) with (- (a / p)) by (unfold Rdiv; ring).
  rewrite trunc_opp, opp_IZR. ring.
Qed.

(** The test, read on the normalized angle. *)
Lemma isVertical_by_normalized (a : R) :
  isVertical a = true <-> spec_isVertical a.
Proof.
  assert (Hp := two_pi_bounds).
  unfold isVertical, spec_isVertical. cbv zeta.
  destruct (abs_rem_normalize a) as [Hs Hcase]. cbv zeta in Hs, Hcase.
  rewrite orb_true_iff, JSFacts.ltb_spec, JSFacts.gtb_spec.
  destruct Hcase as [E | [Hpos E]]; rewrite E; lra.
Qed.

Lemma normalize_angle_turn (a : R) (k : Z) :
  normalize_angle (a + IZR k * (PI * 2)) = normalize_angle a.
Proof.
  assert (Hp := two_pi_bounds).
  unfold normalize_angle.
  assert (E : Int_part ((a + IZR k * (PI * 2)) / (PI * 2))
              = (Int_part (a / (PI * 2)) + k)%Z).
  { apply JSFacts.floor_unique.
    replace ((a + IZR k * (PI * 2)) / (PI * 2)) with (a / (PI * 2) + IZR k)
      by (field; lra).
    assert (H := JSFacts.floor_bounds (a / (PI * 2))).
    rewrite plus_IZR. lra. }
  rewrite E, plus_IZR. ring.
Qed.

(** X12.  The verticality test does not depend on the direction of the
    tilt nor on whole turns: an angle, its opposite and the angle plus
    any number of full turns get the same answer.  A blade lying flat or
    standing upside down fails the test. *)
Theorem isVertical_symmetries :
  (forall a : R, isVertical (- a) = isVertical a) /\
  (forall (a : R) (k : Z), isVertical (a + IZR k * (PI * 2)) = isVertical a) /\
  isVertical (PI / 2) = false /\ isVertical PI = false.
Proof.
  split; [| split; [| split]].
  - intros a. unfold isVertical. cbv zeta.
    now rewrite rem_opp, Rabs_Ropp.
  - intros a k.
    assert (H1 := isVertical_by_normalized (a + IZR k * (PI * 2))).
    assert (H2 := isVertical_by_normalized a).
    unfold spec_isVertical in H1. rewrite normalize_angle_turn in H1.
    fold (spec_isVertical a) in H1.
    destruct (isVertical (a + IZR k * (PI * 2))), (isVertical a);
      try reflexivity; intuition discriminate.
  - exact isVertical_flat.
  - unfold isVertical. cbv zeta.
    assert (Hp := two_pi_bounds).
    rewrite JSFacts.rem_small by lra.
    rewrite Rabs_pos_eq by lra.
    rewrite JSFacts.ltb_false by lra.
    now rewrite JSFacts.gtb_false by lra.
Qed.

(** ** Where the outline lies *)

Lemma topVertices_samples (noise2D : R -> R -> R) (canvas_w canvas_h : Z) :
  exists top : list Vector.t,
    topVertices noise2D canvas_w canvas_h = Some top /\
    forall v : Vector.t, In v top ->
      exists x : R,
        0 <= x <= island_width canvas_w /\
        v = topVertex noise2D (island_startX canvas_w)
              (island_surfaceY canvas_h) x.
Proof.
  eexists. split; [apply topVertices_eq |].
  intros v Hv. apply in_map_iff in Hv. destruct Hv as (j & <- & Hj).
  apply in_seq in Hj.
  destruct (sampleCount_spec (island_width canvas_w)) as [Hin _].
  assert (Hle := Hin j ltac:(lia)).
  assert (Hr := resolution_pos).
  assert (0 <= INR j) by apply pos_INR.
  eexists. split; [| reflexivity]. nra.
Qed.

(** X13.  On a canvas of positive width and with noise samples in
    [[-1, 1]], every vertex of the outline lies between the near and the
    far edge of the island, at most 60 above the nominal surface and at
    most 310 below it; so the whole terrain is above the boundary at
    [canvas.height + 400]. *)
Theorem island_bounding_box
    (noise2D : R -> R -> R) (canvas_w canvas_h : Z) :
  bounded_noise noise2D ->
  (0 < canvas_w)%Z ->
  exists vertices : list Vector.t,
    0 < island_width canvas_w /\
    vertices <> [] /\
    islandVertices noise2D canvas_w canvas_h = Some vertices /\
    forall v : Vector.t, In v vertices ->
      island_startX canvas_w <= Vector.x v <= island_endX canvas_w /\
      island_surfaceY canvas_h - 60 <= Vector.y v
        <= island_surfaceY canvas_h + 310 /\
      Vector.y v < IZR canvas_h + 400.
Proof.
  intros Hnoise Hw.
  assert (Hpos := island_width_pos canvas_w Hw).
  destruct (islandVertices_eq noise2D canvas_w canvas_h)
    as (top & bottom & Ht & Hb & E).
  destruct (topVertices_samples noise2D canvas_w canvas_h) as (top' & Ht' & Htop).
  destruct (bottomVertices_samples noise2D canvas_w canvas_h)
    as (bottom' & Hb' & Hbottom).
  assert (top' = top) by congruence. assert (bottom' = bottom) by congruence.
  subst top' bottom'.
  exists (top ++ bottom). split; [exact Hpos |].
  split.
  { rewrite topVertices_eq in Ht. injection Ht as <-.
    unfold sampleCount.
    destruct (Rle_dec 0 (island_width canvas_w)) as [_ | n];
      [discriminate | exfalso; apply n; lra]. }
  split; [exact E |].
  assert (Hend : island_endX canvas_w
                 = island_startX canvas_w + island_width canvas_w)
    by (unfold island_width; ring).
  intros v Hv. apply in_app_or in Hv. destruct Hv as [Hv | Hv].
  - destruct (Htop v Hv) as (x & Hx & ->).
    unfold topVertex. cbn [Vector.x Vector.y]. cbv zeta.
    assert (Hn := Hnoise ((x + island_startX canvas_w)
                          * CONFIG.ISLAND.NOISE_SCALE) 0).
    unfold island_surfaceY. rewrite Hend. repeat split; lra.
  - destruct (Hbottom v Hv) as (x & Hx & ->).
    unfold bottomVertex. cbn [Vector.x Vector.y]. cbv zeta.
    assert (Hn := Hnoise ((x + island_startX canvas_w) * 0.01) 100).
    assert (Harc := arc_nonneg x (island_width canvas_w) Hpos Hx).
    assert (Hsin := SIN_bound (x / island_width canvas_w * PI)).
    unfold island_surfaceY, CONFIG.ISLAND.DEPTH. rewrite Hend.
    repeat split; lra.
Qed.

Lemma island_bounding_box_witness :
  exists vertices : list Vector.t,
    0 < island_width 240 /\
    vertices <> [] /\
    islandVertices Sample.slanted_noise 240 400 = Some vertices /\
    forall v : Vector.t, In v vertices ->
      island_startX 240 <= Vector.x v <= island_endX 240 /\
      island_surfaceY 400 - 60 <= Vector.y v <= island_surfaceY 400 + 310 /\
      Vector.y v < IZR 400 + 400.
Proof.
  apply (island_bounding_box Sample.slanted_noise 240 400); [| lia].
  intros a b. unfold Sample.slanted_noise, Rmax, Rmin.
  destruct (Rle_dec 1 (1 - b / 50));
    match goal with |- context [Rle_dec ?x ?y] => destruct (Rle_dec x y) end;
    lra.
Defined.

Lemma nth_error_map_seq {A : Type} (f : nat -> A) (n j : nat) :
  (j < n)%nat -> nth_error (map f (seq 0 n)) j = Some (f j).
Proof.
  intros Hj. apply map_nth_error.
  rewrite (nth_error_nth' (seq 0 n) 0%nat) by (now rewrite length_seq).
  now rewrite seq_nth.
Qed.

(** X14.  The outline is wound one way: the top pass runs from the near
    edge to the right in steps of 15, each vertex within 40 of the
    nominal surface for noise samples in [[-1, 1]], and the bottom pass
    runs back from the far edge to the left in steps of 15. *)
Theorem island_winding
    (noise2D : R -> R -> R) (canvas_w canvas_h : Z) :
  bounded_noise noise2D ->
  exists top bottom : list Vector.t,
    islandVertices noise2D canvas_w canvas_h = Some (top ++ bottom) /\
    List.length top = sampleCount (island_width canvas_w) /\
    List.length bottom = sampleCount (island_width canvas_w) /\
    forall j : nat, (j < sampleCount (island_width canvas_w))%nat ->
      exists vt vb : Vector.t,
        nth_error top j = Some vt /\ nth_error bottom j = Some vb /\
        Vector.x vt = island_startX canvas_w + 15 * INR j /\
        Vector.x vb = island_endX canvas_w - 15 * INR j /\
        island_surfaceY canvas_h - 40 <= Vector.y vt
          <= island_surfaceY canvas_h + 40.
Proof.
  intros Hnoise.
  exists (map (fun j => topVertex noise2D (island_startX canvas_w)
                          (island_surfaceY canvas_h) (resolution * INR j))
              (seq 0 (sampleCount (island_width canvas_w)))).
  exists (map (fun j => bottomVertex noise2D (island_startX canvas_w)
                          (island_width canvas_w) (island_surfaceY canvas_h)
                          (island_width canvas_w - resolution * INR j))
              (seq 0 (sampleCount (island_width canvas_w)))).
  split.
  { unfold islandVertices. cbv zeta.
    rewrite topVertices_eq. apply bottomPass_total. }
  split; [now rewrite length_map, length_seq |].
  split; [now rewrite length_map, length_seq |].
  intros j Hj.
  eexists; eexists.
  split; [now apply nth_error_map_seq |].
  split; [now apply nth_error_map_seq |].
  unfold topVertex, bottomVertex, resolution. cbn [Vector.x Vector.y]. cbv zeta.
  assert (Hn := Hnoise ((15 * INR j + island_startX canvas_w)
                        * CONFIG.ISLAND.NOISE_SCALE) 0).
  unfold island_width.
  repeat split; lra.
Qed.

Lemma island_winding_witness :
  exists top bottom : list Vector.t,
    islandVertices (fun _ _ => 0) 250 400 = Some (top ++ bottom) /\
    List.length top = sampleCount (island_width 250) /\
    List.length bottom = sampleCount (island_width 250) /\
    forall j : nat, (j < sampleCount (island_width 250))%nat ->
      exists vt vb : Vector.t,
        nth_error top j = Some vt /\ nth_error bottom j = Some vb /\
        Vector.x vt = island_startX 250 + 15 * INR j /\
        Vector.x vb = island_endX 250 - 15 * INR j /\
        island_surfaceY 400 - 40 <= Vector.y vt <= island_surfaceY 400 + 40.
Proof.
  apply (island_winding (fun _ _ => 0) 250 400).
  intros a b. lra.
Defined.
